(** * Subtitle timing and rendering: [src/subtitle_generator.py]

    A shallow embedding of the [SubtitleGenerator] class of the music-news
    pipeline: the lyric segmenter ([_split_lyrics]), the timing allocator
    ([_assign_timings]) and the two emitters ([_write_srt], [_write_ass])
    with their timestamp formatters.

    Python values are modelled as the interpreter has them:
    - a [str] is a sequence of Unicode code points ([list N]), so that
      [len] counts characters and not bytes;
    - a [float] is an IEEE-754 binary64 number (Rocq's primitive [float]),
      with [//], [%] and [int()] following CPython's [floatobject.c];
    - an [int] is an unbounded integer ([Z]);
    - a raised exception is the [Raise] branch of [result]. *)

From Stdlib Require Import Ascii String.
From Stdlib Require Import ZArith NArith List Lia Bool Floats.
Import ListNotations.

Set Warnings "-inexact-float".

(* ================================================================== *)
(** * The Python runtime the module relies on *)
(* ================================================================== *)

Module Py.

(** ** Exceptions *)

Inductive exn : Set :=
| ZeroDivisionError
| ValueError
| OverflowError.

Inductive result (A : Type) : Type :=
| Ok (a : A)
| Raise (e : exn).

Arguments Ok {A} a.
Arguments Raise {A} e.

Definition bind {A B : Type} (m : result A) (k : A -> result B) : result B :=
  match m with
  | Ok a => k a
  | Raise e => Raise e
  end.

(** ** Strings *)

(** A character is its code point. *)
Definition char := N.
Definition pystr := list char.

Definition LF : char := 10%N.

(** A literal of the source, read character by character. *)
Definition str (s : string) : pystr := map N_of_ascii (list_ascii_of_string s).

(** [str.isspace] on one character: CPython's [_PyUnicode_IsWhitespace]. *)
Definition isspace (c : char) : bool :=
  ((9 <=? c) && (c <=? 13) || (28 <=? c) && (c <=? 32)
   || (c =? 133) || (c =? 160) || (c =? 5760)
   || (8192 <=? c) && (c <=? 8202)
   || (c =? 8232) || (c =? 8233) || (c =? 8239) || (c =? 8287)
   || (c =? 12288))%N.

Fixpoint lstrip (s : pystr) : pystr :=
  match s with
  | [] => []
  | c :: s' => if isspace c then lstrip s' else s
  end.

Definition rstrip (s : pystr) : pystr := rev (lstrip (rev s)).

(** [s.strip()] with no argument. *)
Definition strip (s : pystr) : pystr := rstrip (lstrip s).

(** [s.split(sep)] for a one-character separator: always at least one
    piece, empty pieces kept. *)
Fixpoint split (sep : char) (s : pystr) : list pystr :=
  match s with
  | [] => [[]]
  | c :: s' =>
      if (c =? sep)%N then [] :: split sep s'
      else match split sep s' with
           | [] => [[c]]
           | piece :: pieces => (c :: piece) :: pieces
           end
  end.

(** Truth value of a string: non-empty. *)
Definition truthy (s : pystr) : bool :=
  match s with [] => false | _ :: _ => true end.

(** ** Integers as text *)

Fixpoint uint_chars (u : Decimal.uint) : pystr :=
  match u with
  | Decimal.Nil => []
  | Decimal.D0 u => 48%N :: uint_chars u
  | Decimal.D1 u => 49%N :: uint_chars u
  | Decimal.D2 u => 50%N :: uint_chars u
  | Decimal.D3 u => 51%N :: uint_chars u
  | Decimal.D4 u => 52%N :: uint_chars u
  | Decimal.D5 u => 53%N :: uint_chars u
  | Decimal.D6 u => 54%N :: uint_chars u
  | Decimal.D7 u => 55%N :: uint_chars u
  | Decimal.D8 u => 56%N :: uint_chars u
  | Decimal.D9 u => 57%N :: uint_chars u
  end.

(** Decimal digits of a natural number, most significant first, no
    leading zero (["0"] for zero). *)
Definition digits (n : N) : pystr := uint_chars (N.to_uint n).

(** [f"{n}"] for an [int]. *)
Definition format_d (n : Z) : pystr :=
  if (n <? 0)%Z then 45%N :: digits (Z.abs_N n) else digits (Z.abs_N n).

(** [f"{n:0wd}"]: sign-aware zero padding to a minimum width [w]. *)
Definition format_0d (w : nat) (n : Z) : pystr :=
  let ds := digits (Z.abs_N n) in
  if (n <? 0)%Z
  then 45%N :: repeat 48%N (w - 1 - length ds) ++ ds
  else repeat 48%N (w - length ds) ++ ds.

(** ** Floats *)

(** [float(n)] for an [int] (correctly rounded; too large an [int]
    raises). *)
Definition float_of_int (n : Z) : result float :=
  let f := SF2Prim (binary_normalize prec emax n 0 false) in
  if is_infinity f then Raise OverflowError else Ok f.

(** [a / b] on floats ([float_div]). *)
Definition truediv (a b : float) : result float :=
  if (b =? 0)%float then Raise ZeroDivisionError else Ok (a / b)%float.

(** [max(a, b)]: the first argument unless the second is greater. *)
Definition max (a b : float) : float :=
  if (a <? b)%float then b else a.

(** [sum(xs)]: accumulation from the left, starting at [0]. *)
Definition sum (xs : list float) : float :=
  fold_left PrimFloat.add xs 0%float.

(** C's [copysign(0.0, w)]. *)
Definition zero_like (w : float) : float :=
  if get_sign w then neg_zero else zero.

(** C's [fmod]: the remainder of the division truncated towards zero; it
    is exact and has the sign of [x]. *)
Definition fmod (x y : float) : float :=
  match Prim2SF x, Prim2SF y with
  | S754_nan, _ | _, S754_nan => nan
  | S754_infinity _, _ => nan
  | _, S754_zero _ => nan
  | S754_zero _, _ => x
  | S754_finite _ _ _, S754_infinity _ => x
  | S754_finite sx mx ex, S754_finite _ my ey =>
      let e := Z.min ex ey in
      let r := Z.modulo (Zpos mx * 2 ^ (ex - e)) (Zpos my * 2 ^ (ey - e)) in
      SF2Prim (binary_normalize prec emax (cond_Zopp sx r) e sx)
  end.

(** C's [floor]. *)
Definition floor (x : float) : float :=
  match Prim2SF x with
  | S754_finite s m e =>
      if (0 <=? e)%Z then x
      else SF2Prim (binary_normalize prec emax
                      (Z.div (cond_Zopp s (Zpos m)) (2 ^ (- e))) 0 s)
  | _ => x
  end.

(** C truth value of a double: anything but a zero. *)
Definition nonzero (x : float) : bool := negb (x =? 0)%float.

(** [v % w] on floats ([float_rem]). *)
Definition mod_ (v w : float) : result float :=
  if (w =? 0)%float then Raise ZeroDivisionError
  else
    let m := fmod v w in
    Ok (if nonzero m
        then if negb (Bool.eqb (w <? 0)%float (m <? 0)%float)
             then (m + w)%float else m
        else zero_like w).

(** [v // w] on floats ([float_floor_div], through [_float_div_mod]). *)
Definition floordiv (v w : float) : result float :=
  if (w =? 0)%float then Raise ZeroDivisionError
  else
    let m := fmod v w in
    let div := ((v - m) / w)%float in
    let div :=
      if nonzero m && negb (Bool.eqb (w <? 0)%float (m <? 0)%float)
      then (div - 1)%float else div in
    Ok (if nonzero div
        then let fl := floor div in
             if (0.5 <? div - fl)%float then (fl + 1)%float else fl
        else zero_like (v / w)%float).

(** [int(x)] for a float: truncation towards zero. *)
Definition int (x : float) : result Z :=
  match Prim2SF x with
  | S754_zero _ => Ok 0%Z
  | S754_finite s m e =>
      Ok (cond_Zopp s (if (0 <=? e)%Z then Zpos m * 2 ^ e
                       else Z.div (Zpos m) (2 ^ (- e))))
  | S754_infinity _ => Raise OverflowError
  | S754_nan => Raise ValueError
  end.

End Py.

Import Py.

Notation "x <- m ;; k" := (bind m (fun x => k))
  (at level 61, m at next level, right associativity).

(* ================================================================== *)
(** * [class SubtitleGenerator] *)
(* ================================================================== *)

(** A subtitle entry is the tuple [(start_time, end_time, text)]. *)
Definition entry : Type := float * float * pystr.

Definition start_seconds (c : entry) : float := fst (fst c).
Definition end_seconds (c : entry) : float := snd (fst c).
Definition text (c : entry) : pystr := snd c.

(** ** [_split_lyrics] *)

(** [re.match(r'^\[.*\]$', line)]: an opening bracket, then characters
    other than a line feed, then a closing bracket at the end of the
    string or just before a final line feed. [after_open] scans what
    follows the opening bracket. *)
Fixpoint after_open (s : pystr) : bool :=
  match s with
  | [] => false
  | c :: s' =>
      ((c =? 93)%N && match s' with
                      | [] => true
                      | [d] => (d =? LF)%N
                      | _ => false
                      end)
      || (negb (c =? LF)%N && after_open s')
  end.

Definition re_match_section (line : pystr) : bool :=
  match line with
  | c :: s' => (c =? 91)%N && after_open s'
  | [] => false
  end.

Definition _split_lyrics (lyrics : pystr) : list pystr :=
  let lines := split LF lyrics in
  let lines := map strip (filter (fun line => truthy (strip line)) lines) in
  let lines := filter (fun line => negb (re_match_section line)) lines in
  lines.

(** ** [_assign_timings] *)

(** The first loop: one raw duration per line, at least two seconds. *)
Fixpoint line_durations_loop (chars_per_second : float) (lines : list pystr)
    (line_durations : list float) : result (list float) :=
  match lines with
  | [] => Ok line_durations
  | line :: rest =>
      n <- float_of_int (Z.of_nat (length line)) ;;
      q <- truediv n chars_per_second ;;
      let line_duration := Py.max 2 q in
      line_durations_loop chars_per_second rest
        (line_durations ++ [line_duration])
  end.

(** The second loop, over [zip(lines, line_durations)], with its
    [break]. *)
Fixpoint timing_loop (duration scale_factor : float)
    (items : list (pystr * float)) (current_time : float)
    (subtitle_entries : list entry) : list entry :=
  match items with
  | [] => subtitle_entries
  | (line, line_duration) :: rest =>
      let start_time := current_time in
      let scaled_duration := (line_duration * scale_factor)%float in
      let end_time := (start_time + scaled_duration)%float in
      let end_time :=
        if (duration <? end_time)%float then duration else end_time in
      let subtitle_entries :=
        subtitle_entries ++ [(start_time, end_time, line)] in
      let current_time := end_time in
      if (duration <=? current_time)%float then subtitle_entries
      else timing_loop duration scale_factor rest current_time
             subtitle_entries
  end.

Definition _assign_timings (lines : list pystr)
    (duration chars_per_second : float) : result (list entry) :=
  match lines with
  | [] => Ok []
  | _ :: _ =>
      line_durations <- line_durations_loop chars_per_second lines [] ;;
      let total_calculated_duration := Py.sum line_durations in
      scale_factor <-
        (if (0 <? total_calculated_duration)%float
         then truediv duration total_calculated_duration
         else Ok 1%float) ;;
      Ok (timing_loop duration scale_factor
            (combine lines line_durations) 0%float [])
  end.

(** ** The emitters *)

(** The text written so far to the file opened with mode ['w']; [write]
    is [f.write(s)]. *)
Definition file : Type := pystr.

Definition write (f : file) (s : pystr) : file := f ++ s.

(** *** [_format_time] and [_format_time_ass] *)

Definition _format_time (seconds : float) : result pystr :=
  q <- floordiv seconds 3600 ;;
  hours <- int q ;;
  r <- mod_ seconds 3600 ;;
  q <- floordiv r 60 ;;
  minutes <- int q ;;
  r <- mod_ seconds 60 ;;
  secs <- int r ;;
  r <- mod_ seconds 1 ;;
  millis <- int (r * 1000)%float ;;
  Ok (format_0d 2 hours ++ str ":" ++ format_0d 2 minutes ++ str ":"
      ++ format_0d 2 secs ++ str "," ++ format_0d 3 millis).

Definition _format_time_ass (seconds : float) : result pystr :=
  q <- floordiv seconds 3600 ;;
  hours <- int q ;;
  r <- mod_ seconds 3600 ;;
  q <- floordiv r 60 ;;
  minutes <- int q ;;
  r <- mod_ seconds 60 ;;
  secs <- int r ;;
  r <- mod_ seconds 1 ;;
  centisecs <- int (r * 100)%float ;;
  Ok (format_d hours ++ str ":" ++ format_0d 2 minutes ++ str ":"
      ++ format_0d 2 secs ++ str "." ++ format_0d 2 centisecs).

(** *** [_write_srt] *)

(** The loop over [enumerate(subtitle_entries, 1)]. *)
Fixpoint write_srt_loop (subtitle_entries : list entry) (i : Z) (f : file)
  : result file :=
  match subtitle_entries with
  | [] => Ok f
  | (start_time, end_time, text) :: rest =>
      let f := write f (format_d i ++ [LF]) in
      s <- _format_time start_time ;;
      e <- _format_time end_time ;;
      let f := write f (s ++ str " --> " ++ e ++ [LF]) in
      let f := write f (text ++ [LF]) in
      let f := write f [LF] in
      write_srt_loop rest (i + 1) f
  end.

(** The result is the content of the file when the [with] block is left
    normally. *)
Definition _write_srt (subtitle_entries : list entry) : result file :=
  write_srt_loop subtitle_entries 1 [].

(** [generate_srt], as the content of the file it writes. *)
Definition generate_srt (lyrics : pystr) (duration chars_per_second : float)
  : result file :=
  let lines := _split_lyrics lyrics in
  subtitle_entries <- _assign_timings lines duration chars_per_second ;;
  _write_srt subtitle_entries.

(** *** [_write_ass] *)

(** The style and effect arguments of [_write_ass], in the order of its
    signature. *)
Record style_args : Type := {
  font_name : pystr;
  font_size : Z;
  primary_color : pystr;
  secondary_color : pystr;
  outline_color : pystr;
  back_color : pystr;
  outline : float;
  shadow : float;
  bold : bool;
  alignment : Z;
  margin_v : Z;
  fade_in : float;
  fade_out : float
}.

Section StyledEmitter.

(** [f"{x}"] for a float is [repr(x)], a function of the interpreter; the
    emitter is parametric in it. *)
Variable float_repr : float -> pystr.

Definition script_info (f : file) : file :=
  let f := write f (str "[Script Info]" ++ [LF]) in
  let f := write f (str "Title: Music News AI Subtitles" ++ [LF]) in
  let f := write f (str "ScriptType: v4.00+" ++ [LF]) in
  let f := write f (str "Collisions: Normal" ++ [LF]) in
  let f := write f (str "PlayDepth: 0" ++ [LF]) in
  let f := write f (str "Timer: 100.0000" ++ [LF]) in
  let f := write f (str "WrapStyle: 0" ++ [LF]) in
  write f [LF].

Definition styles_format : pystr :=
  str "Format: Name, Fontname, Fontsize, PrimaryColour, SecondaryColour, "
  ++ str "OutlineColour, BackColour, Bold, Italic, Underline, StrikeOut, "
  ++ str "ScaleX, ScaleY, Spacing, Angle, BorderStyle, Outline, Shadow, "
  ++ str "Alignment, MarginL, MarginR, MarginV, Encoding" ++ [LF].

Definition style_line (st : style_args) : pystr :=
  let bold_val := if bold st then (-1)%Z else 0%Z in
  str "Style: Default," ++ font_name st ++ str "," ++ format_d (font_size st)
  ++ str "," ++ primary_color st ++ str "," ++ secondary_color st ++ str ","
  ++ outline_color st ++ str "," ++ back_color st ++ str ","
  ++ format_d bold_val ++ str ",0,0,0,"
  ++ str "100,100,0,0,1," ++ float_repr (outline st) ++ str ","
  ++ float_repr (shadow st) ++ str ","
  ++ format_d (alignment st) ++ str ",20,20," ++ format_d (margin_v st)
  ++ str ",1" ++ [LF].

Definition v4_styles (st : style_args) (f : file) : file :=
  let f := write f (str "[V4+ Styles]" ++ [LF]) in
  let f := write f styles_format in
  let f := write f (style_line st) in
  write f [LF].

Definition events_format : pystr :=
  str "Format: Layer, Start, End, Style, Name, MarginL, MarginR, MarginV, Effect, Text"
  ++ [LF].

(** The loop over [subtitle_entries]. *)
Fixpoint write_ass_loop (st : style_args) (subtitle_entries : list entry)
    (f : file) : result file :=
  match subtitle_entries with
  | [] => Ok f
  | (start_time, end_time, text) :: rest =>
      start_str <- _format_time_ass start_time ;;
      end_str <- _format_time_ass end_time ;;
      fade_in_ms <- int (fade_in st * 1000)%float ;;
      fade_out_ms <- int (fade_out st * 1000)%float ;;
      let effect_text :=
        str "{\fad(" ++ format_d fade_in_ms ++ str ","
        ++ format_d fade_out_ms ++ str ")}" ++ text in
      let f :=
        write f (str "Dialogue: 0," ++ start_str ++ str "," ++ end_str
                 ++ str ",Default,,0,0,0,," ++ effect_text ++ [LF]) in
      write_ass_loop st rest f
  end.

Definition _write_ass (subtitle_entries : list entry) (st : style_args)
  : result file :=
  let f := script_info [] in
  let f := v4_styles st f in
  let f := write f (str "[Events]" ++ [LF]) in
  let f := write f events_format in
  write_ass_loop st subtitle_entries f.

(** [generate_ass], as the content of the file it writes. *)
Definition generate_ass (lyrics : pystr) (duration chars_per_second : float)
    (st : style_args) : result file :=
  let lines := _split_lyrics lyrics in
  subtitle_entries <- _assign_timings lines duration chars_per_second ;;
  _write_ass subtitle_entries st.

End StyledEmitter.

(* ================================================================== *)
(** * Vocabulary of the properties *)
(* ================================================================== *)

(** ** The segmenter *)

(** A bracketed section marker in the words of the specification: an
    opening bracket, any characters, a closing bracket, nothing else. *)
Definition bracketed (line : pystr) : bool :=
  match line with
  | c :: rest => (c =? 91)%N && (last rest 0 =? 93)%N
  | [] => false
  end.

(** The segmenter in the words of the specification: split on line
    breaks, trim, drop the empty lines and the markers, keep the order. *)
Definition segment (raw_text : pystr) : list pystr :=
  filter (fun line => truthy line && negb (bracketed line))
    (map strip (split LF raw_text)).

(** The input of P4. *)
Definition p4_lyrics : pystr :=
  str "[Intro]" ++ [LF] ++ str "hello" ++ [LF; LF] ++ str "[Verse 1]" ++ [LF]
  ++ str "world  " ++ [LF].


(** ** The allocator *)

(** The text fields of a cue sequence. *)
Definition texts (cues : list entry) : list pystr := map text cues.

(** The last cue, if any. *)
Fixpoint last_entry (cues : list entry) : option entry :=
  match cues with
  | [] => None
  | [c] => Some c
  | _ :: rest => last_entry rest
  end.



(** A chain of cues from the clock value [t]: each cue starts where the
    clock stands and moves it to its end. *)
Fixpoint chain (t : float) (cues : list entry) : Prop :=
  match cues with
  | [] => True
  | c :: rest => start_seconds c = t /\ chain (end_seconds c) rest
  end.

(** Python's [x == y], [x < y] and [x <= y] on floats, as propositions. *)
Definition feq (x y : float) : Prop := (x =? y)%float = true.
Definition flt (x y : float) : Prop := (x <? y)%float = true.
Definition fle (x y : float) : Prop := (x <=? y)%float = true.

(** The clamp of the allocator: [end_time] after
    [if end_time > duration: end_time = duration]. *)
Definition clamp (duration end_time : float) : float :=
  if (duration <? end_time)%float then duration else end_time.




(** ** The emitters *)

(** The lines of a document, each closed by a line feed. *)
Definition unlines (ls : list string) : pystr :=
  concat (map (fun l => str l ++ [LF]) ls).





Definition p5_document : pystr :=
  unlines ["1"; "00:00:00,000 --> 00:00:02,000"; "a"; "";
           "2"; "00:00:02,000 --> 00:00:05,500"; "b"; "";
           "3"; "00:00:05,500 --> 00:00:10,000"; "c"; ""]%string.




(** [sep.join(fields)]. *)
Fixpoint join (sep : pystr) (fields : list pystr) : pystr :=
  match fields with
  | [] => []
  | [x] => x
  | x :: rest => x ++ sep ++ join sep rest
  end.

(** The 23 columns of the style row, in the order of the [Format:]
    line. *)
Definition style_fields (float_repr : float -> pystr) (st : style_args)
  : list pystr :=
  [str "Default"; font_name st; format_d (font_size st);
   primary_color st; secondary_color st; outline_color st; back_color st;
   (if bold st then str "-1" else str "0");
   str "0"; str "0"; str "0"; str "100"; str "100"; str "0"; str "0";
   str "1"; float_repr (outline st); float_repr (shadow st);
   format_d (alignment st); str "20"; str "20"; format_d (margin_v st);
   str "1"].

(** The same style with another bold flag. *)
Definition with_bold (b : bool) (st : style_args) : style_args :=
  {| font_name := font_name st; font_size := font_size st;
     primary_color := primary_color st;
     secondary_color := secondary_color st;
     outline_color := outline_color st; back_color := back_color st;
     outline := outline st; shadow := shadow st; bold := b;
     alignment := alignment st; margin_v := margin_v st;
     fade_in := fade_in st; fade_out := fade_out st |}.

(** The styled document up to its cue rows: the script metadata, the
    style table with its [Format:] line and its single row, the header of
    the events section with its [Format:] line. *)
Definition ass_preamble (float_repr : float -> pystr) (st : style_args)
  : pystr :=
  unlines ["[Script Info]"; "Title: Music News AI Subtitles";
           "ScriptType: v4.00+"; "Collisions: Normal"; "PlayDepth: 0";
           "Timer: 100.0000"; "WrapStyle: 0"; ""; "[V4+ Styles]"]%string
  ++ styles_format
  ++ str "Style: " ++ join (str ",") (style_fields float_repr st) ++ [LF]
  ++ [LF]
  ++ unlines ["[Events]"]%string
  ++ events_format.

(** A sample style: the defaults of [generate_ass] with the fades of
    P8. *)
Definition p8_style : style_args :=
  {| font_name := str "Noto Sans CJK JP"; font_size := 52;
     primary_color := str "&H00FFFFFF"; secondary_color := str "&H00FF00FF";
     outline_color := str "&H00000000"; back_color := str "&H80000000";
     outline := 3; shadow := 2; bold := true; alignment := 2;
     margin_v := 40; fade_in := 0.4; fade_out := 0.4 |}.

(** [repr] on the floats of integral value that the sample styles use
    ([3.0], [2.0]): the digits of the integer, a point and a zero. *)
Definition repr_integral (x : float) : pystr :=
  match int x with
  | Ok n => format_d n ++ str ".0"
  | Raise _ => []
  end.


(** ** Binary64 values *)

(** The record of a mantissa from which no bit was shifted out. *)
Definition exact_record (m : positive) : shr_record :=
  {| shr_m := Zpos m; shr_r := false; shr_s := false |}.

(** The canonical exponent and mantissa of the number [r * 2 ^ e]. *)
Definition canon_e (r : positive) (e : Z) : Z :=
  fexp prec emax (Zpos (digits2_pos r) + e).

Definition canon_m (r : positive) (e : Z) : positive :=
  Z.to_pos (Zpos r * 2 ^ (e - canon_e r e)).

(** [fin f v]: [f] is a finite float, zero or positive, of value
    [v * 2 ^ -1074]. Every finite binary64 number is such a multiple. *)
Definition fin (f : float) (v : Z) : Prop :=
  match Prim2SF f with
  | S754_zero _ => v = 0%Z
  | S754_finite false m e => v = (Zpos m * 2 ^ (e + 1074))%Z
  | _ => False
  end.

(** After [k] shifts of [P]: the mantissa is the quotient by [2 ^ k],
    and a set round bit means a remainder of at least half. *)
Definition shr_inv (P k : Z) (mrs : shr_record) : Prop :=
  (0 <= shr_m mrs)%Z
  /\ exists rho, (P = shr_m mrs * 2 ^ k + rho)%Z /\ (0 <= rho < 2 ^ k)%Z
                 /\ (shr_r mrs = true -> (2 ^ (k - 1) <= rho)%Z).

(** ** Timestamps *)

(** The character of a decimal digit. *)
Definition digit (d : Z) : char := (48 + Z.to_N d)%N.

Definition two_digits (v : Z) : pystr := [digit (v / 10); digit (v mod 10)].

Definition three_digits (v : Z) : pystr :=
  [digit (v / 100); digit (v / 10 mod 10); digit (v mod 10)].

(** [seconds] is a number of seconds from [0] to [2 ^ 53]. *)
Definition time_value (seconds : float) : Prop :=
  fle 0 seconds /\ flt seconds 0x1p53.

(** ** Lines, cues and documents *)

(** A string with no white space at either end. *)
Definition trimmed (s : pystr) : Prop :=
  match s with
  | [] => True
  | c :: _ => isspace c = false /\ isspace (last s c) = false
  end.

(** A line as the segmenter leaves it: not empty, trimmed, on one line,
    and not a section marker. *)
Definition clean (line : pystr) : Prop :=
  line <> [] /\ trimmed line /\ ~ In LF line /\ bracketed line = false.

(** A text of fewer than [2 ^ 53] characters: its length is a float. *)
Definition short (line : pystr) : Prop := (Z.of_nat (length line) < 2 ^ 53)%Z.

(** The start and end times of a result of the allocator. *)
Definition timings (r : result (list entry)) : result (list (float * float)) :=
  match r with
  | Ok cues => Ok (map fst cues)
  | Raise e => Raise e
  end.

(** The number of line feeds of a text. *)
Definition line_feeds (s : pystr) : nat := count_occ N.eq_dec s LF.




(* ================================================================== *)
(** * Facts about binary64 comparisons *)
(* ================================================================== *)

Section FloatOrder.

Lemma SFcompare_refl x : SFcompare x x = Some Eq \/ SFcompare x x = None.
Proof.
  destruct x as [s|s| |s m e]; simpl; auto; destruct s; simpl; auto;
    rewrite Z.compare_refl; fold (Pos.compare m m);
    rewrite Pos.compare_refl; auto.
Qed.

Lemma ltb_irrefl x : (x <? x)%float = false.
Proof.
  rewrite ltb_spec. unfold SFltb.
  destruct (SFcompare_refl (Prim2SF x)) as [H|H]; rewrite H; reflexivity.
Qed.

Lemma SFcompare_Eq_sym x y :
  SFcompare x y = Some Eq -> SFcompare y x = Some Eq.
Proof.
  destruct x as [s|s| |s m e], y as [s'|s'| |s' m' e']; simpl;
    try discriminate; try reflexivity;
    try (destruct s; discriminate); try (destruct s'; discriminate).
  - destruct s, s'; simpl; intros H; try discriminate; reflexivity.
  - destruct s, s'; try discriminate;
      destruct (Z.compare_spec e e') as [He|He|He]; try discriminate;
      fold (Pos.compare m m'); fold (Pos.compare m' m); subst e';
      rewrite Z.compare_refl;
      destruct (Pos.compare_spec m m') as [Hm|Hm|Hm]; try discriminate;
      subst m'; rewrite Pos.compare_refl; reflexivity.
Qed.

(** [x <= y] and not [x < y] leave only [y == x]. *)
Lemma leb_not_ltb_eqb x y :
  (x <=? y)%float = true -> (x <? y)%float = false -> (y =? x)%float = true.
Proof.
  rewrite leb_spec, ltb_spec, eqb_spec. unfold SFleb, SFltb, SFeqb.
  destruct (SFcompare (Prim2SF x) (Prim2SF y)) as [[ | | ]|] eqn:H;
    try discriminate.
  intros _ _. rewrite (SFcompare_Eq_sym _ _ H). reflexivity.
Qed.

(** A float above zero is not a zero: [duration / total] cannot raise
    behind the guard [total > 0]. *)
Lemma ltb_zero_neq x : (0 <? x)%float = true -> (x =? 0)%float = false.
Proof.
  rewrite ltb_spec, eqb_spec. unfold SFltb, SFeqb.
  replace (Prim2SF 0) with (S754_zero false) by reflexivity.
  destruct (Prim2SF x) as [s|s| |s m e]; simpl; try discriminate;
    destruct s; simpl; try discriminate; reflexivity.
Qed.

End FloatOrder.

(* ================================================================== *)
(** * The timing allocator *)
(* ================================================================== *)

Section Allocator.

Variables duration scale_factor : float.

Let loop := timing_loop duration scale_factor.

(** The entries already collected stay in front. *)
Lemma timing_loop_acc items : forall current_time acc,
  loop items current_time acc = acc ++ loop items current_time [].
Proof.
  unfold loop.
  induction items as [|[line d] rest IH]; intros t acc; simpl.
  - now rewrite app_nil_r.
  - destruct (duration <=? _)%float; [reflexivity|].
    rewrite IH. rewrite (IH _ [_]). now rewrite app_assoc.
Qed.

(** One turn of the loop. *)
Lemma timing_loop_step line d rest t :
  loop ((line, d) :: rest) t [] =
  let e := clamp duration (t + d * scale_factor)%float in
  (t, e, line)
    :: (if (duration <=? e)%float then [] else loop rest e []).
Proof.
  unfold loop. simpl. fold (clamp duration (t + d * scale_factor)%float).
  destruct (duration <=? _)%float; [reflexivity|].
  now rewrite (timing_loop_acc rest _ [_]).
Qed.

Lemma clamp_not_after e : (duration <? clamp duration e)%float = false.
Proof.
  unfold clamp. destruct (duration <? e)%float eqn:H; [apply ltb_irrefl|exact H].
Qed.

Lemma clamp_reached e :
  (duration <=? clamp duration e)%float = true -> feq (clamp duration e) duration.
Proof.
  intros H. apply leb_not_ltb_eqb; [exact H|apply clamp_not_after].
Qed.

(** The cues are a chain from the clock value the loop was entered
    with. *)
Lemma timing_loop_chain items : forall t, chain t (loop items t []).
Proof.
  induction items as [|[line d] rest IH]; intros t; [exact I|].
  rewrite timing_loop_step. cbv zeta. split; [reflexivity|].
  destruct (duration <=? _)%float; [exact I|apply IH].
Qed.

(** No cue ends after [duration]. *)
Lemma timing_loop_not_after items : forall t c,
  In c (loop items t []) -> (duration <? end_seconds c)%float = false.
Proof.
  induction items as [|[line d] rest IH]; intros t c; [intros []|].
  rewrite timing_loop_step. cbv zeta. intros [<-|Hin].
  - apply clamp_not_after.
  - destruct (duration <=? _)%float; [destruct Hin|eapply IH; eauto].
Qed.

(** The texts are the first lines, in order. *)
Lemma timing_loop_texts items : forall t,
  exists rest, map fst items = texts (loop items t []) ++ rest.
Proof.
  induction items as [|[line d] rest IH]; intros t; [now exists []|].
  rewrite timing_loop_step. cbv zeta.
  destruct (duration <=? _)%float.
  - exists (map fst rest). reflexivity.
  - destruct (IH (clamp duration (t + d * scale_factor)%float)) as [r Hr].
    exists r. simpl. now rewrite Hr.
Qed.


(** When the loop leaves lines without a cue, it has stopped on a cue
    that ends at [duration]. *)
Lemma timing_loop_stopped items : forall t,
  length (loop items t []) < length items ->
  exists c, last_entry (loop items t []) = Some c
            /\ feq (end_seconds c) duration.
Proof.
  induction items as [|[line d] rest IH]; intros t; [simpl; lia|].
  rewrite timing_loop_step. cbv zeta.
  destruct (duration <=? _)%float eqn:Hstop.
  - intros _. eexists. split; [reflexivity|]. now apply clamp_reached.
  - simpl length. intros Hlen.
    destruct (IH (clamp duration (t + d * scale_factor)%float)) as (c & Hc & He);
      [lia|].
    exists c. split; [|exact He]. simpl.
    destruct (loop rest _ []); [discriminate|exact Hc].
Qed.

End Allocator.



(** The first loop yields one duration per line. *)
Lemma line_durations_length cps lines : forall acc ds,
  line_durations_loop cps lines acc = Ok ds ->
  length ds = length acc + length lines.
Proof.
  induction lines as [|line rest IH]; intros acc ds; simpl.
  - intros [= <-]. lia.
  - destruct (float_of_int _) as [n|]; [simpl|discriminate].
    destruct (truediv n cps) as [q|]; [simpl|discriminate].
    intros H. apply IH in H. rewrite H, length_app. simpl. lia.
Qed.

Lemma map_fst_combine {A B} (l : list A) (l' : list B) :
  length l = length l' -> map fst (combine l l') = l.
Proof.
  revert l'. induction l as [|a l IH]; intros [|b l']; simpl; try discriminate;
    [reflexivity|].
  intros [= H]. now rewrite IH.
Qed.

(** What [_assign_timings] returns, as a run of the second loop. *)
Lemma assign_timings_run lines duration cps cues :
  lines <> [] ->
  _assign_timings lines duration cps = Ok cues ->
  exists ds scale_factor,
    line_durations_loop cps lines [] = Ok ds
    /\ length ds = length lines
    /\ cues = timing_loop duration scale_factor (combine lines ds) 0%float [].
Proof.
  intros Hne. unfold _assign_timings.
  destruct lines as [|l0 ls]; [congruence|].
  destruct (line_durations_loop cps (l0 :: ls) []) as [ds|] eqn:Hds;
    [simpl|discriminate].
  pose proof (line_durations_length _ _ _ _ Hds) as Hlen. simpl in Hlen.
  destruct (0 <? Py.sum ds)%float eqn:Hpos.
  - unfold truediv. rewrite (ltb_zero_neq _ Hpos). simpl.
    intros [= <-]. exists ds. eexists. repeat split; auto.
  - simpl. intros [= <-]. exists ds. eexists. repeat split; auto.
Qed.

(** The division by the total never raises: once the raw durations are
    computed, the allocator returns. *)
Lemma assign_timings_returns lines duration cps ds :
  line_durations_loop cps lines [] = Ok ds ->
  exists cues, _assign_timings lines duration cps = Ok cues.
Proof.
  intros Hds. unfold _assign_timings.
  destruct lines as [|l0 ls]; [now eexists|].
  rewrite Hds. simpl.
  destruct (0 <? Py.sum ds)%float eqn:Hpos.
  - unfold truediv. rewrite (ltb_zero_neq _ Hpos). simpl. now eexists.
  - simpl. now eexists.
Qed.


Lemma texts_length cues : length (texts cues) = length cues.
Proof. apply length_map. Qed.






(** What every returned cue sequence satisfies, whatever the inputs. *)
Lemma assign_timings_shape lines duration cps cues :
  _assign_timings lines duration cps = Ok cues ->
  (exists rest, lines = texts cues ++ rest)
  /\ chain 0 cues
  /\ (forall c, In c cues -> (duration <? end_seconds c)%float = false)
  /\ (length cues < length lines ->
      exists c, last_entry cues = Some c /\ feq (end_seconds c) duration).
Proof.
  intros Hc. destruct lines as [|l0 ls].
  - injection Hc as <-. repeat split; simpl; try tauto; try lia. now exists [].
  - destruct (assign_timings_run (l0 :: ls) _ _ _ ltac:(discriminate) Hc)
      as (ds & sf & _ & Hlen & ->).
    set (items := combine (l0 :: ls) ds).
    assert (Hitems : map fst items = l0 :: ls) by now apply map_fst_combine.
    assert (Hn : length items = length (l0 :: ls))
      by (rewrite <- Hitems at 1; now rewrite length_map).
    split.
    { destruct (timing_loop_texts duration sf items 0%float) as [rest Hrest].
      rewrite Hitems in Hrest. now exists rest. }
    split; [apply timing_loop_chain|].
    split; [intros c; apply timing_loop_not_after|].
    rewrite <- Hn. apply timing_loop_stopped.
Qed.

(** Two one-character lines. *)
Definition two_lines : list pystr := [str "x"; str "y"].







(** C10. The texts of the returned cues are a prefix of the lines, so
    there are no more cues than lines. *)
Theorem assign_timings_texts_prefix
    (lines : list pystr) (total_duration cps : float) (cues : list entry) :
  _assign_timings lines total_duration cps = Ok cues ->
  (exists rest, lines = texts cues ++ rest)
  /\ length cues <= length lines.
Proof.
  intros Hc.
  destruct (assign_timings_shape _ _ _ _ Hc) as ([rest Hrest] & _).
  split; [now exists rest|].
  rewrite Hrest at 1. rewrite length_app, texts_length. lia.
Qed.

(** C10 at two lines and five seconds. *)
Lemma assign_timings_texts_prefix_witness :
  _assign_timings two_lines 5 15
    = Ok [(0, 2.5, str "x"); (2.5, 5, str "y")]%float
  /\ (exists rest,
        two_lines = texts [(0, 2.5, str "x"); (2.5, 5, str "y")]%float ++ rest)
  /\ length [(0, 2.5, str "x"); (2.5, 5, str "y")]%float <= length two_lines.
Proof.
  split; [vm_compute; reflexivity|].
  apply (assign_timings_texts_prefix two_lines 5 15).
  vm_compute. reflexivity.
Defined.

(* ================================================================== *)
(** * The segmenter *)
(* ================================================================== *)

Section Segmenter.

Lemma lstrip_incl s : forall c, In c (lstrip s) -> In c s.
Proof.
  induction s as [|a s IH]; intros c; simpl; [tauto|].
  destruct (isspace a); [right; now apply IH|tauto].
Qed.

Lemma strip_incl s c : In c (strip s) -> In c s.
Proof.
  unfold strip, rstrip. intros H.
  apply in_rev, lstrip_incl, in_rev in H. now apply lstrip_incl.
Qed.

(** No piece of a split holds the separator. *)
Lemma split_no_sep sep s : forall piece, In piece (split sep s) -> ~ In sep piece.
Proof.
  induction s as [|c s IH]; intros piece; simpl.
  - intros [<-|[]]. tauto.
  - destruct (N.eqb_spec c sep) as [->|Hc].
    + intros [<-|H]; [tauto|now apply IH].
    + destruct (split sep s) as [|p ps]; simpl.
      * intros [<-|[]]. intros [E|[]]. congruence.
      * intros [<-|H].
        -- intros [E|H]; [congruence|]. apply (IH p); simpl; tauto.
        -- apply IH. simpl. tauto.
Qed.

(** On a string without a line feed, the tail of the pattern matches
    exactly when the string ends with a closing bracket. *)
Lemma after_open_last s : ~ In LF s -> after_open s = (last s 0 =? 93)%N.
Proof.
  induction s as [|c s IH]; intros Hnl; [reflexivity|].
  assert (Hc : (c =? LF)%N = false)
    by (apply N.eqb_neq; intros ->; apply Hnl; simpl; tauto).
  assert (Hs : ~ In LF s) by (intros H; apply Hnl; simpl; tauto).
  cbn [after_open]. rewrite Hc, (IH Hs). cbn [negb andb].
  destruct s as [|d s']; [cbn; now rewrite andb_true_r, orb_false_r|].
  assert (Hd : (d =? LF)%N = false)
    by (apply N.eqb_neq; intros ->; apply Hs; simpl; tauto).
  destruct s' as [|d' s'']; [rewrite Hd|]; now rewrite andb_false_r.
Qed.

End Segmenter.

Section SegmenterSpec.

Lemma filter_filter {A} (p q : A -> bool) l :
  filter q (filter p l) = filter (fun x => p x && q x) l.
Proof.
  induction l as [|a l IH]; [reflexivity|]. simpl.
  destruct (p a); simpl; [destruct (q a)|]; now rewrite IH.
Qed.

Lemma map_filter_commute {A B} (f : A -> B) (p : B -> bool) l :
  map f (filter (fun x => p (f x)) l) = filter p (map f l).
Proof.
  induction l as [|a l IH]; [reflexivity|]. simpl.
  destruct (p (f a)); simpl; now rewrite IH.
Qed.

(** On a line cut out by [split] and trimmed, the regular expression
    says what the specification says. *)
Lemma re_match_section_bracketed line :
  ~ In LF line -> re_match_section line = bracketed line.
Proof.
  destruct line as [|c rest]; [reflexivity|]. intros H. simpl.
  rewrite after_open_last; [reflexivity|]. intros Hin. apply H. simpl. tauto.
Qed.

(** C4. The segmenter splits on line feeds, drops the lines that are
    empty once trimmed and the trimmed lines of the form [[...]], and
    returns the others trimmed, in their order; on the input of P4 it
    returns [hello] and [world]. *)
Theorem split_lyrics_segment :
  (forall lyrics, _split_lyrics lyrics = segment lyrics)
  /\ _split_lyrics p4_lyrics = [str "hello"; str "world"].
Proof.
  split; [|vm_compute; reflexivity].
  intros lyrics. unfold _split_lyrics, segment.
  rewrite (map_filter_commute strip truthy), filter_filter.
  apply filter_ext_in. intros line Hin.
  destruct (truthy line); [simpl|reflexivity]. f_equal.
  apply re_match_section_bracketed.
  apply in_map_iff in Hin. destruct Hin as (raw & <- & Hraw).
  intros H. apply strip_incl in H. exact (split_no_sep _ _ _ Hraw H).
Qed.





End SegmenterSpec.

(* ================================================================== *)
(** * The emitters *)
(* ================================================================== *)

Section Emitters.



Variable float_repr : float -> pystr.

Lemma style_line_fields st :
  style_line float_repr st
  = str "Style: " ++ join (str ",") (style_fields float_repr st) ++ [LF].
Proof.
  unfold style_line, style_fields. cbv zeta. cbn [join].
  replace (format_d (if bold st then (-1)%Z else 0%Z))
    with (if bold st then str "-1" else str "0") by now destruct (bold st).
  change (str ",0,0,0,") with (str "," ++ str "0" ++ str "," ++ str "0" ++ str "," ++ str "0" ++ str ",").
  change (str "100,100,0,0,1,")
    with (str "100" ++ str "," ++ str "100" ++ str "," ++ str "0" ++ str ","
          ++ str "0" ++ str "," ++ str "1" ++ str ",").
  change (str ",20,20,") with (str "," ++ str "20" ++ str "," ++ str "20" ++ str ",").
  change (str ",1") with (str "," ++ str "1").
  change (str "Style: Default,") with (str "Style: " ++ str "Default" ++ str ",").
  repeat (rewrite <- app_assoc; cbn [app]). reflexivity.
Qed.

(** What is written before the first cue row. *)
Lemma write_ass_preamble st :
  write (write (v4_styles float_repr st (script_info []))
           (str "[Events]" ++ [LF])) events_format
  = ass_preamble float_repr st.
Proof.
  unfold v4_styles, script_info, write, ass_preamble.
  rewrite style_line_fields. cbn [unlines map concat].
  repeat (rewrite <- app_assoc; cbn [app]). reflexivity.
Qed.


End Emitters.

Section EmitterClaims.

Variable float_repr : float -> pystr.


End EmitterClaims.


Section StyleRow.

Variable float_repr : float -> pystr.

(** Whatever the cues, the document starts with the preamble. *)
Lemma write_ass_loop_prefix st cues : forall f doc,
  write_ass_loop st cues f = Ok doc -> exists rows, doc = f ++ rows.
Proof.
  induction cues as [|[[s e] t] cues IH]; intros f doc; simpl.
  - intros [= <-]. exists []. now rewrite app_nil_r.
  - destruct (_format_time_ass s) as [ss|]; [simpl|discriminate].
    destruct (_format_time_ass e) as [es|]; [simpl|discriminate].
    destruct (int (fade_in st * 1000)%float) as [i|]; [simpl|discriminate].
    destruct (int (fade_out st * 1000)%float) as [o|]; [simpl|discriminate].
    intros H. destruct (IH _ _ H) as [rows ->]. unfold write.
    eexists. now rewrite <- app_assoc.
Qed.

(** C8. The style table holds one row, [Style: ] and 23 columns joined by
    commas; the bold column is [-1] for a bold style and [0] otherwise;
    the flag changes no other column; italic, underline and strike-out
    are [0], the scales [100], spacing and angle [0], the border style
    [1], the left and right margins [20]. *)
Theorem style_row_bold_flag (st : style_args) :
  (forall cues doc,
     _write_ass float_repr cues st = Ok doc ->
     exists rows, doc = ass_preamble float_repr st ++ rows)
  /\ style_line float_repr st
     = str "Style: " ++ join (str ",") (style_fields float_repr st) ++ [LF]
  /\ length (style_fields float_repr st) = 23
  /\ nth_error (style_fields float_repr st) 7
     = Some (if bold st then str "-1" else str "0")
  /\ (forall b i, i <> 7 ->
        nth_error (style_fields float_repr (with_bold b st)) i
        = nth_error (style_fields float_repr st) i)
  /\ map (fun i => nth i (style_fields float_repr st) [])
       [8; 9; 10; 11; 12; 13; 14; 15; 19; 20]
     = [str "0"; str "0"; str "0"; str "100"; str "100"; str "0"; str "0";
        str "1"; str "20"; str "20"].
Proof.
  split; [|split; [|split; [|split; [|split]]]].
  - intros cues doc. unfold _write_ass. rewrite write_ass_preamble.
    apply write_ass_loop_prefix.
  - apply style_line_fields.
  - reflexivity.
  - reflexivity.
  - intros b i Hi. do 7 (destruct i as [|i]; [reflexivity|]).
    destruct i as [|i]; [congruence|reflexivity].
  - reflexivity.
Qed.


End StyleRow.


(* ================================================================== *)
(** * Exact binary64 arithmetic *)
(* ================================================================== *)

Section Binary64.

Local Open Scope Z_scope.

(** ** Number of binary digits *)

Lemma digits2_bounds p :
  2 ^ (Zpos (digits2_pos p) - 1) <= Zpos p < 2 ^ Zpos (digits2_pos p).
Proof.
  induction p as [p IH|p IH|]; cbn [digits2_pos].
  - rewrite Pos2Z.inj_succ.
    replace (Z.succ (Zpos (digits2_pos p)) - 1) with (Z.succ (Zpos (digits2_pos p) - 1)) by lia.
    rewrite !Z.pow_succ_r by lia. lia.
  - rewrite Pos2Z.inj_succ.
    replace (Z.succ (Zpos (digits2_pos p)) - 1) with (Z.succ (Zpos (digits2_pos p) - 1)) by lia.
    rewrite !Z.pow_succ_r by lia. lia.
  - simpl. lia.
Qed.

Lemma digits2_unique p d :
  2 ^ (d - 1) <= Zpos p < 2 ^ d -> Zpos (digits2_pos p) = d.
Proof.
  intros [Hlo Hhi]. pose proof (digits2_bounds p) as [Hlo' Hhi'].
  assert (0 < d) by (destruct (Z_lt_le_dec 0 d); [assumption|];
    rewrite (Z.pow_neg_r 2 (d - 1)) in Hlo by lia;
    assert (2 ^ d <= 2 ^ 0) by (apply Z.pow_le_mono_r; lia); simpl in *; lia).
  destruct (Z.lt_trichotomy (Zpos (digits2_pos p)) d) as [Hlt|[->|Hgt]]; [|reflexivity|].
  - assert (2 ^ Zpos (digits2_pos p) <= 2 ^ (d - 1)) by (apply Z.pow_le_mono_r; lia). lia.
  - assert (2 ^ d <= 2 ^ (Zpos (digits2_pos p) - 1)) by (apply Z.pow_le_mono_r; lia). lia.
Qed.

(** Shifting left adds digits. *)
Lemma digits2_shift p q k :
  0 <= k -> Zpos q = Zpos p * 2 ^ k ->
  Zpos (digits2_pos q) = Zpos (digits2_pos p) + k.
Proof.
  intros Hk Hq. apply digits2_unique. rewrite Hq.
  pose proof (digits2_bounds p) as [Hlo Hhi].
  replace (Zpos (digits2_pos p) + k - 1) with ((Zpos (digits2_pos p) - 1) + k) by lia.
  rewrite !Z.pow_add_r by lia.
  assert (0 < 2 ^ k) by (apply Z.pow_pos_nonneg; lia). nia.
Qed.

(** ** Shifts *)

Lemma iter_pos_iter {A} (f : A -> A) p : forall x, iter_pos f p x = Pos.iter f x p.
Proof.
  induction p as [p IH|p IH|]; intros x; simpl.
  - rewrite !IH. now rewrite <- !Pos.iter_swap.
  - now rewrite !IH.
  - reflexivity.
Qed.

Lemma iter_xO_value m p : Zpos (Pos.iter xO m p) = Zpos m * 2 ^ Zpos p.
Proof.
  induction p as [|p IH] using Pos.peano_ind.
  - simpl. lia.
  - rewrite Pos.iter_succ, Pos2Z.inj_succ, Z.pow_succ_r by lia.
    rewrite Pos2Z.inj_xO, IH. lia.
Qed.


Lemma shr_iter_exact m p :
  iter_pos shr_1 p (exact_record (Pos.iter xO m p)) = exact_record m.
Proof.
  rewrite iter_pos_iter.
  induction p as [|p IH] using Pos.peano_ind.
  - reflexivity.
  - rewrite !Pos.iter_succ, <- Pos.iter_swap. exact IH.
Qed.

(** ** Rounding a representable number *)

Lemma fexp_eq e : fexp prec emax e = Z.max (e - 53) (-1074).
Proof. reflexivity. Qed.

Lemma bounded_inv m e :
  bounded prec emax m e = true ->
  fexp prec emax (Zpos (digits2_pos m) + e) = e /\ e <= 971.
Proof.
  unfold bounded, canonical_mantissa. intros H.
  apply andb_true_iff in H. destruct H as [H1 H2].
  apply Z.eqb_eq in H1. apply Z.leb_le in H2. split; [exact H1|exact H2].
Qed.

(** The value carried by mantissa [m'] at exponent [e'], written at the
    lower exponent [e], is rounded to itself. *)
Lemma binary_round_aux_exact s m e m' e' :
  bounded prec emax m' e' = true ->
  e <= e' -> Zpos m = Zpos m' * 2 ^ (e' - e) ->
  binary_round_aux prec emax s (Zpos m) e loc_Exact = S754_finite s m' e'.
Proof.
  intros Hb Hle Hm. destruct (bounded_inv _ _ Hb) as [Hcan Hmax].
  assert (Hd : Zpos (digits2_pos m) + e = Zpos (digits2_pos m') + e')
    by (rewrite (digits2_shift m' m (e' - e)); lia).
  unfold binary_round_aux, shr_fexp. cbn [Zdigits2 shr_record_of_loc].
  rewrite Hd, Hcan.
  assert (Hstep : shr {| shr_m := Zpos m; shr_r := false; shr_s := false |} e (e' - e)
                  = (exact_record m', e')).
  { destruct (e' - e) as [|p|p] eqn:Hk; try lia.
    - simpl. assert (m = m') by lia. subst m. unfold exact_record. f_equal. lia.
    - unfold shr. f_equal; [|lia].
      assert (m = Pos.iter xO m' p) by (apply Pos2Z.inj; rewrite iter_xO_value; exact Hm).
      subst m. apply shr_iter_exact. }
  rewrite Hstep. cbn [exact_record shr_m loc_of_shr_record round_nearest_even shr_record_of_loc Zdigits2].
  rewrite Hcan, Z.sub_diag. cbn [shr shr_m].
  apply Z.leb_le in Hmax. change (emax - prec) with 971. now rewrite Hmax.
Qed.

Lemma bounded_emin m e : bounded prec emax m e = true -> -1074 <= e.
Proof.
  intros H. destruct (bounded_inv _ _ H) as [Hc _]. rewrite fexp_eq in Hc. lia.
Qed.

Lemma bounded_digits m e : bounded prec emax m e = true -> Zpos m < 2 ^ 53.
Proof.
  intros H. destruct (bounded_inv _ _ H) as [Hc _]. rewrite fexp_eq in Hc.
  pose proof (digits2_bounds m) as [_ Hhi].
  assert (2 ^ Zpos (digits2_pos m) <= 2 ^ 53) by (apply Z.pow_le_mono_r; lia).
  lia.
Qed.

(** The value carried by mantissa [m'] at exponent [e'], written with
    any mantissa and exponent, is rounded to itself. Values are compared
    as multiples of [2 ^ -1074]. *)
Lemma binary_round_exact s m e m' e' :
  bounded prec emax m' e' = true ->
  -1074 <= e ->
  Zpos m * 2 ^ (e + 1074) = Zpos m' * 2 ^ (e' + 1074) ->
  binary_round prec emax s m e = S754_finite s m' e'.
Proof.
  intros Hb He Hv. pose proof (bounded_emin _ _ Hb) as He'.
  destruct (bounded_inv _ _ Hb) as [Hcan _].
  unfold binary_round.
  destruct (Z_le_gt_dec e e') as [Hle|Hgt].
  - assert (Hm : Zpos m = Zpos m' * 2 ^ (e' - e)).
    { replace (e' + 1074) with ((e' - e) + (e + 1074)) in Hv by lia.
      rewrite (Z.pow_add_r 2 (e' - e) (e + 1074)) in Hv by lia.
      assert (0 < 2 ^ (e + 1074)) by (apply Z.pow_pos_nonneg; lia). nia. }
    rewrite (digits2_shift m' m (e' - e)) by lia.
    replace (Zpos (digits2_pos m') + (e' - e) + e) with (Zpos (digits2_pos m') + e') by lia.
    rewrite Hcan. unfold shl_align.
    destruct (e' - e) eqn:Hk; try lia;
      (apply binary_round_aux_exact; [assumption|lia|rewrite Hk; exact Hm]).
  - assert (Hm : Zpos m' = Zpos m * 2 ^ (e - e')).
    { replace (e + 1074) with ((e - e') + (e' + 1074)) in Hv by lia.
      rewrite (Z.pow_add_r 2 (e - e') (e' + 1074)) in Hv by lia.
      assert (0 < 2 ^ (e' + 1074)) by (apply Z.pow_pos_nonneg; lia). nia. }
    pose proof (digits2_shift m m' (e - e') ltac:(lia) Hm) as Hd.
    replace (Zpos (digits2_pos m) + e) with (Zpos (digits2_pos m') + e') by lia.
    rewrite Hcan. unfold shl_align.
    destruct (e' - e) as [|p|p] eqn:Hk; try lia.
    assert (Pos.iter xO m p = m').
    { apply Pos2Z.inj. rewrite iter_xO_value, Hm. do 2 f_equal. lia. }
    subst m'. apply binary_round_aux_exact; auto; [lia|].
    rewrite Z.sub_diag. simpl. lia.
Qed.

(** ** The canonical form of a small number *)


Lemma canon_e_le r e : Zpos r < 2 ^ 53 -> -1074 <= e -> -1074 <= canon_e r e <= e.
Proof.
  intros Hr He. unfold canon_e. rewrite fexp_eq.
  assert (Zpos (digits2_pos r) <= 53).
  { pose proof (digits2_bounds r) as [Hlo _].
    destruct (Z_le_gt_dec (Zpos (digits2_pos r)) 53); [assumption|].
    assert (2 ^ 53 <= 2 ^ (Zpos (digits2_pos r) - 1)) by (apply Z.pow_le_mono_r; lia).
    lia. }
  lia.
Qed.

Lemma canon_m_value r e :
  Zpos r < 2 ^ 53 -> -1074 <= e ->
  Zpos (canon_m r e) = Zpos r * 2 ^ (e - canon_e r e).
Proof.
  intros Hr He. unfold canon_m. pose proof (canon_e_le r e Hr He).
  rewrite Z2Pos.id; [reflexivity|].
  assert (0 < 2 ^ (e - canon_e r e)) by (apply Z.pow_pos_nonneg; lia). nia.
Qed.

Lemma canon_value r e :
  Zpos r < 2 ^ 53 -> -1074 <= e ->
  Zpos (canon_m r e) * 2 ^ (canon_e r e + 1074) = Zpos r * 2 ^ (e + 1074).
Proof.
  intros Hr He. rewrite canon_m_value by assumption.
  pose proof (canon_e_le r e Hr He).
  rewrite <- Z.mul_assoc, <- Z.pow_add_r by lia. do 2 f_equal. lia.
Qed.

Lemma canon_bounded r e :
  Zpos r < 2 ^ 53 -> -1074 <= e <= 971 ->
  bounded prec emax (canon_m r e) (canon_e r e) = true.
Proof.
  intros Hr He. pose proof (canon_e_le r e Hr ltac:(lia)).
  unfold bounded, canonical_mantissa. apply andb_true_iff. split.
  - apply Z.eqb_eq.
    pose proof (digits2_shift r (canon_m r e) (e - canon_e r e) ltac:(lia)
                  (canon_m_value r e Hr ltac:(lia))) as Hd.
    replace (Zpos (digits2_pos (canon_m r e)) + canon_e r e)
      with (Zpos (digits2_pos r) + e) by lia.
    reflexivity.
  - apply Z.leb_le. change (emax - prec) with 971. lia.
Qed.

(** A canonical pair is determined by its value. *)
Lemma bounded_unique m e m' e' :
  bounded prec emax m e = true -> bounded prec emax m' e' = true ->
  Zpos m * 2 ^ (e + 1074) = Zpos m' * 2 ^ (e' + 1074) ->
  m = m' /\ e = e'.
Proof.
  intros Hb Hb' Hv.
  pose proof (binary_round_exact false m e m e Hb (bounded_emin _ _ Hb) eq_refl) as H1.
  pose proof (binary_round_exact false m e m' e' Hb' (bounded_emin _ _ Hb) Hv) as H2.
  rewrite H1 in H2. now injection H2.
Qed.

(** Normalising a small non-negative number gives its canonical form. *)
Lemma normalize_small M e :
  0 <= M < 2 ^ 53 -> -1074 <= e <= 971 ->
  binary_normalize prec emax M e false
  = match M with
    | Zpos r => S754_finite false (canon_m r e) (canon_e r e)
    | _ => S754_zero false
    end.
Proof.
  intros HM He. destruct M as [|r|r]; [reflexivity| |lia].
  unfold binary_normalize. apply binary_round_exact.
  - apply canon_bounded; lia.
  - lia.
  - symmetry. apply canon_value; lia.
Qed.

End Binary64.

Section Fin.

Local Open Scope Z_scope.

Lemma pow_pos e : 0 <= e -> 0 < 2 ^ e.
Proof. intros. apply Z.pow_pos_nonneg; lia. Qed.

Lemma fin_cases f v :
  fin f v ->
  (v = 0 /\ exists s, Prim2SF f = S754_zero s)
  \/ (0 < v /\ exists m e, Prim2SF f = S754_finite false m e
                          /\ bounded prec emax m e = true
                          /\ v = Zpos m * 2 ^ (e + 1074)).
Proof.
  unfold fin. pose proof (Prim2SF_valid f) as Hv.
  destruct (Prim2SF f) as [s|s| |s m e]; try tauto.
  - intros ->. left. split; [reflexivity|now exists s].
  - destruct s; [tauto|]. intros ->. right. simpl in Hv.
    pose proof (bounded_emin _ _ Hv).
    pose proof (pow_pos (e + 1074) ltac:(lia)).
    split; [lia|]. now exists m, e.
Qed.

Lemma fin_nonneg f v : fin f v -> 0 <= v.
Proof. intros H. destruct (fin_cases _ _ H) as [[-> _]|[? _]]; lia. Qed.

Lemma fin_eqb_zero f v : fin f v -> (f =? 0)%float = (v =? 0).
Proof.
  intros H. rewrite eqb_spec. unfold SFeqb.
  replace (Prim2SF 0) with (S754_zero false) by reflexivity.
  destruct (fin_cases _ _ H) as [[-> [s ->]]|[Hpos (m & e & -> & _)]].
  - reflexivity.
  - simpl. symmetry. apply Z.eqb_neq. lia.
Qed.

Lemma fin_ltb_zero f v : fin f v -> (f <? 0)%float = false.
Proof.
  intros H. rewrite ltb_spec. unfold SFltb.
  replace (Prim2SF 0) with (S754_zero false) by reflexivity.
  destruct (fin_cases _ _ H) as [[-> [s ->]]|[Hpos (m & e & -> & _)]];
    reflexivity.
Qed.

Lemma fin_nonzero f v : fin f v -> nonzero f = negb (v =? 0).
Proof. intros H. unfold nonzero. now rewrite (fin_eqb_zero _ _ H). Qed.

(** [int] of a finite float is the integer part of its value. *)
Lemma fin_int f v : fin f v -> int f = Ok (v / 2 ^ 1074).
Proof.
  intros H. unfold int.
  destruct (fin_cases _ _ H) as [[-> [s ->]]|[Hpos (m & e & -> & Hb & ->)]].
  - reflexivity.
  - pose proof (bounded_emin _ _ Hb) as He. cbn [cond_Zopp]. f_equal.
    destruct (Z.leb_spec 0 e).
    + replace (e + 1074) with (e + 1074 - 1074 + 1074) by lia.
      rewrite (Z.pow_add_r 2 (e + 1074 - 1074) 1074) by lia.
      rewrite Z.mul_assoc, Z.div_mul by (pose proof (pow_pos 1074); lia).
      do 2 f_equal. lia.
    + replace 1074 with ((- e) + (e + 1074)) at 2 by lia.
      rewrite (Z.pow_add_r 2 (- e) (e + 1074)) by lia.
      rewrite Z.div_mul_cancel_r;
        [reflexivity| |]; pose proof (pow_pos (- e)); pose proof (pow_pos (e + 1074)); lia.
Qed.

Lemma fin_of_spec f sf v :
  Prim2SF f = sf ->
  match sf with
  | S754_zero _ => v = 0
  | S754_finite false m e => v = Zpos m * 2 ^ (e + 1074)
  | _ => False
  end -> fin f v.
Proof. unfold fin. now intros ->. Qed.

(** What [SF2Prim] makes of a normalised small number. *)
Lemma fin_normalize M e :
  0 <= M < 2 ^ 53 -> -1074 <= e <= 971 ->
  fin (SF2Prim (binary_normalize prec emax M e false)) (M * 2 ^ (e + 1074)).
Proof.
  intros HM He. rewrite normalize_small by assumption. unfold fin.
  destruct M as [|r|r]; [reflexivity| |lia].
  rewrite Prim2SF_SF2Prim by (apply canon_bounded; lia).
  symmetry. apply canon_value; lia.
Qed.

(** [fmod] is exact. *)
Lemma fin_fmod x w vx vw :
  fin x vx -> fin w vw -> 0 < vw -> fin (fmod x w) (vx mod vw).
Proof.
  intros Hx Hw Hpos. unfold fmod.
  destruct (fin_cases _ _ Hw) as [[-> _]|[_ (mw & ew & Ew & Hbw & ->)]]; [lia|].
  destruct (fin_cases _ _ Hx) as [[-> [s Ex]]|[_ (mx & ex & Ex & Hbx & ->)]];
    rewrite Ex, Ew.
  - rewrite Z.mod_0_l by lia. unfold fin. now rewrite Ex.
  - pose proof (bounded_emin _ _ Hbx) as Hex.
    pose proof (bounded_emin _ _ Hbw) as Hew.
    destruct (bounded_inv _ _ Hbx) as [_ Hex'].
    destruct (bounded_inv _ _ Hbw) as [_ Hew'].
    pose proof (bounded_digits _ _ Hbx) as Hmx.
    pose proof (bounded_digits _ _ Hbw) as Hmw.
    cbv zeta. cbn [cond_Zopp].
    set (e := Z.min ex ew).
    set (X := Zpos mx * 2 ^ (ex - e)). set (Y := Zpos mw * 2 ^ (ew - e)).
    assert (HY : 0 < Y) by (unfold Y; pose proof (pow_pos (ew - e)); lia).
    assert (HX : 0 < X) by (unfold X; pose proof (pow_pos (ex - e)); lia).
    pose proof (Z.mod_pos_bound X Y HY) as Hr.
    assert (Hsmall : X mod Y < 2 ^ 53).
    { destruct (Z.min_spec ex ew) as [[_ Hm]|[_ Hm]]; fold e in Hm.
      - assert (X = Zpos mx) by (unfold X; rewrite Hm, Z.sub_diag; simpl; lia).
        assert (X mod Y <= X) by (apply Z.mod_le; lia). lia.
      - assert (Y = Zpos mw) by (unfold Y; rewrite Hm, Z.sub_diag; simpl; lia).
        lia. }
    assert (HvX : Zpos mx * 2 ^ (ex + 1074) = X * 2 ^ (e + 1074)).
    { unfold X. rewrite <- Z.mul_assoc, <- Z.pow_add_r by lia. do 2 f_equal. lia. }
    assert (HvY : Zpos mw * 2 ^ (ew + 1074) = Y * 2 ^ (e + 1074)).
    { unfold Y. rewrite <- Z.mul_assoc, <- Z.pow_add_r by lia. do 2 f_equal. lia. }
    rewrite HvX, HvY.
    rewrite Z.mul_mod_distr_r by (pose proof (pow_pos (e + 1074)); lia).
    apply fin_normalize; lia.
Qed.

End Fin.

Section Exact.

Local Open Scope Z_scope.

Lemma shl_align_value m e ez :
  ez <= e -> Zpos (fst (shl_align m e ez)) = Zpos m * 2 ^ (e - ez).
Proof.
  intros H. unfold shl_align.
  destruct (ez - e) as [|p|p] eqn:Hk; try lia; cbn [fst].
  - replace (e - ez) with 0 by lia. simpl. lia.
  - rewrite iter_xO_value. do 2 f_equal. lia.
Qed.

(** A subtraction whose result is a small multiple of a power of two is
    exact. *)
Lemma fin_sub x y vx vy R e :
  fin x vx -> fin y vy -> vy <= vx ->
  vx - vy = R * 2 ^ (e + 1074) -> R < 2 ^ 53 -> -1074 <= e <= 971 ->
  fin (x - y)%float (vx - vy).
Proof.
  intros Hx Hy Hle HR HR53 He.
  assert (H0 : 0 < 2 ^ (e + 1074)) by (apply pow_pos; lia).
  unfold fin. rewrite sub_spec.
  destruct (fin_cases _ _ Hy) as [[-> [sy Ey]]|[Hypos (my & ey & Ey & Hby & Evy)]];
    destruct (fin_cases _ _ Hx) as [[-> [sx Ex]]|[Hxpos (mx & ex & Ex & Hbx & Evx)]];
    rewrite Ex, Ey; try lia.
  - destruct sx, sy; reflexivity.
  - cbv [SF64sub SFsub]. lia.
  - subst vx vy. unfold SF64sub, SFsub. cbn [cond_Zopp].
    pose proof (bounded_emin _ _ Hbx) as Hex.
    pose proof (bounded_emin _ _ Hby) as Hey.
    set (ez := Z.min ex ey).
    rewrite !shl_align_value by (unfold ez; lia).
    set (M := Zpos mx * 2 ^ (ex - ez) - Zpos my * 2 ^ (ey - ez)).
    assert (HM : M * 2 ^ (ez + 1074)
                 = Zpos mx * 2 ^ (ex + 1074) - Zpos my * 2 ^ (ey + 1074)).
    { unfold M. rewrite Z.mul_sub_distr_r.
      rewrite <- !Z.mul_assoc, <- !Z.pow_add_r by (unfold ez; lia).
      f_equal; do 2 f_equal; lia. }
    assert (Hz : 0 < 2 ^ (ez + 1074)) by (apply pow_pos; unfold ez; lia).
    destruct M as [|p|p] eqn:EM.
    + cbv [binary_normalize]. lia.
    + unfold binary_normalize.
      assert (HRpos : 0 < R) by nia.
      destruct R as [|r|r]; try lia.
      rewrite (binary_round_exact false p ez (canon_m r e) (canon_e r e)).
      * rewrite <- HM. rewrite canon_value by lia. lia.
      * apply canon_bounded; lia.
      * unfold ez; lia.
      * rewrite canon_value by lia. lia.
    + nia.
Qed.

(** The canonical form of a positive integer below [2 ^ 53]. *)
Lemma canon_int r :
  Zpos r < 2 ^ 53 ->
  canon_e r 0 = Zpos (digits2_pos r) - 53
  /\ Zpos (canon_m r 0) = Zpos r * 2 ^ (53 - Zpos (digits2_pos r))
  /\ Zpos (digits2_pos (canon_m r 0)) = 53.
Proof.
  intros Hr.
  assert (He : canon_e r 0 = Zpos (digits2_pos r) - 53).
  { unfold canon_e. rewrite fexp_eq. lia. }
  pose proof (canon_e_le r 0 Hr ltac:(lia)) as Hle.
  pose proof (canon_m_value r 0 Hr ltac:(lia)) as Hm.
  rewrite He in Hm, Hle.
  replace (0 - (Zpos (digits2_pos r) - 53)) with (53 - Zpos (digits2_pos r)) in Hm by lia.
  split; [exact He|]. split; [exact Hm|].
  rewrite (digits2_shift r (canon_m r 0) (53 - Zpos (digits2_pos r))); lia.
Qed.

(** A finite float whose value is the integer [N] is in the canonical
    form of [N]. *)
Lemma fin_int_spec f r :
  fin f (Zpos r * 2 ^ 1074) -> Zpos r < 2 ^ 53 ->
  Prim2SF f = S754_finite false (canon_m r 0) (canon_e r 0).
Proof.
  intros H Hr. pose proof (pow_pos 1074 ltac:(lia)).
  destruct (fin_cases _ _ H) as [[E _]|[_ (m & e & E & Hb & Hv)]]; [lia|].
  rewrite E.
  destruct (bounded_unique m e (canon_m r 0) (canon_e r 0)) as [-> ->]; auto.
  - apply canon_bounded; lia.
  - rewrite canon_value by lia. simpl (0 + 1074). lia.
Qed.

Lemma digits2_mul_le a b c :
  Zpos c = Zpos a * Zpos b ->
  Zpos (digits2_pos c) <= Zpos (digits2_pos a) + Zpos (digits2_pos b).
Proof.
  intros Hc.
  pose proof (digits2_bounds a) as [_ Ha].
  pose proof (digits2_bounds b) as [_ Hb].
  pose proof (digits2_bounds c) as [Hc' _].
  assert (Zpos c < 2 ^ (Zpos (digits2_pos a) + Zpos (digits2_pos b))).
  { rewrite Z.pow_add_r by lia. nia. }
  destruct (Z_le_gt_dec (Zpos (digits2_pos c)) (Zpos (digits2_pos a) + Zpos (digits2_pos b)));
    [assumption|].
  assert (2 ^ (Zpos (digits2_pos a) + Zpos (digits2_pos b)) <= 2 ^ (Zpos (digits2_pos c) - 1))
    by (apply Z.pow_le_mono_r; lia).
  lia.
Qed.

End Exact.

Section ExactDiv.

Local Open Scope Z_scope.

Lemma div_eucl_exact a b q : 0 < b -> a = q * b -> Z.div_eucl a b = (q, 0).
Proof.
  intros Hb ->.
  pose proof (Z.div_mul q b ltac:(lia)) as Hd.
  pose proof (Z.mod_mul q b ltac:(lia)) as Hm.
  unfold Z.div in Hd. unfold Z.modulo in Hm.
  destruct (Z.div_eucl (q * b) b) as [q' r']. now subst.
Qed.

Lemma new_location_zero n : new_location n 0 = loc_Exact.
Proof. unfold new_location. destruct (Z.even n); reflexivity. Qed.

(** The division of an integer by one of its divisors is exact. *)
Lemma fin_div x w Q W :
  fin x (Q * W * 2 ^ 1074) -> fin w (W * 2 ^ 1074) ->
  0 < W -> 0 <= Q -> Q * W < 2 ^ 53 -> W < 2 ^ 53 ->
  fin (x / w)%float (Q * 2 ^ 1074).
Proof.
  intros Hx Hw HW HQ HN HW53.
  pose proof (pow_pos 1074 ltac:(lia)) as HS.
  destruct W as [|wp|wp]; try lia.
  pose proof (fin_int_spec w wp Hw HW53) as Ew.
  unfold fin. rewrite div_spec, Ew.
  destruct Q as [|q|q]; try lia.
  - destruct (fin_cases _ _ Hx) as [[_ [s ->]]|[Hpos _]]; [reflexivity|lia].
  - change (Zpos q * Zpos wp) with (Zpos (q * wp)) in Hx, HN.
    pose proof (fin_int_spec x (q * wp) Hx HN) as Ex. rewrite Ex.
    assert (Hq53 : Zpos q < 2 ^ 53) by nia.
    destruct (canon_int (q * wp) HN) as (He1 & Hm1 & Hd1).
    destruct (canon_int wp HW53) as (Hew & Hmw & Hdw).
    destruct (canon_int q Hq53) as (Heq & Hmq & Hdq).
    pose proof (digits2_mul_le q wp (q * wp) eq_refl) as Hdig.
    pose proof (digits2_bounds q) as [_ _].
    set (dN := Zpos (digits2_pos (q * wp))) in *.
    set (dW := Zpos (digits2_pos wp)) in *.
    set (dQ := Zpos (digits2_pos q)) in *.
    assert (HdN : 1 <= dN <= 53).
    { unfold dN. pose proof (canon_e_le (q * wp) 0 HN ltac:(lia)). lia. }
    assert (HdW : 1 <= dW <= 53).
    { unfold dW. pose proof (canon_e_le wp 0 HW53 ltac:(lia)). lia. }
    assert (HdQ : 1 <= dQ <= 53).
    { unfold dQ. pose proof (canon_e_le q 0 Hq53 ltac:(lia)). lia. }
    set (m1 := canon_m (q * wp) 0) in *. set (e1 := canon_e (q * wp) 0) in *.
    set (mw := canon_m wp 0) in *. set (ew := canon_e wp 0) in *.
    assert (Hcore : SFdiv_core_binary prec emax (Zpos m1) e1 (Zpos mw) ew
                    = (Zpos q * 2 ^ (53 - dN + dW), e1 - ew - 53, loc_Exact)).
    { unfold SFdiv_core_binary. cbn [Zdigits2]. rewrite Hd1, Hdw.
      replace (53 + e1 - (53 + ew)) with (e1 - ew) by lia.
      rewrite fexp_eq.
      replace (Z.min (Z.max (e1 - ew - 53) (-1074)) (e1 - ew)) with (e1 - ew - 53) by lia.
      replace (e1 - ew - (e1 - ew - 53)) with 53 by lia.
      cbv iota. rewrite Z.shiftl_mul_pow2 by lia.
      rewrite (div_eucl_exact _ (Zpos mw) (Zpos q * 2 ^ (53 - dN + dW))); [|lia|].
      - now rewrite new_location_zero.
      - rewrite Hm1, Hmw. rewrite Pos2Z.inj_mul.
        replace (53 - dN + dW) with ((53 - dN) + 53 - (53 - dW)) by lia.
        set (a := 53 - dN). set (b := 53 - dW).
        assert (0 <= a) by (unfold a; lia). assert (0 <= b <= 52) by (unfold b; lia).
        replace (2 ^ (a + 53 - b) * 1) with (2 ^ (a + 53 - b)) by lia.
        assert (E : 2 ^ (a + 53 - b) * 2 ^ b = 2 ^ a * 2 ^ 53).
        { rewrite <- !Z.pow_add_r by lia. f_equal. lia. }
        nia. }
    unfold SF64div, SFdiv. rewrite Hcore. cbn [xorb].
    assert (Hqpos : 0 < Zpos q * 2 ^ (53 - dN + dW))
      by (pose proof (pow_pos (53 - dN + dW) ltac:(lia)); nia).
    destruct (Zpos q * 2 ^ (53 - dN + dW)) as [|p|p] eqn:Ep; try lia.
    rewrite (binary_round_aux_exact false p (e1 - ew - 53) (canon_m q 0) (canon_e q 0)).
    + rewrite canon_value by lia. simpl (0 + 1074). reflexivity.
    + apply canon_bounded; lia.
    + lia.
    + rewrite <- Ep, Hmq, Heq, <- Z.mul_assoc, <- Z.pow_add_r by lia.
      do 2 f_equal. lia.
Qed.

(** [floor] leaves a float of integral value alone. *)
Lemma floor_integral x Q :
  fin x (Q * 2 ^ 1074) -> floor x = x.
Proof.
  intros Hx. unfold floor.
  destruct (fin_cases _ _ Hx) as [[_ [s E]]|[Hpos (m & e & E & Hb & Hv)]];
    rewrite E; [reflexivity|].
  destruct (Z.leb_spec 0 e); [reflexivity|].
  pose proof (bounded_emin _ _ Hb) as He.
  assert (Hm : Zpos m = Q * 2 ^ (- e)).
  { replace 1074 with ((- e) + (e + 1074)) in Hv at 1 by lia.
    rewrite (Z.pow_add_r 2 (- e) (e + 1074)) in Hv by lia.
    pose proof (pow_pos (e + 1074) ltac:(lia)). nia. }
  cbn [cond_Zopp]. rewrite Hm, Z.div_mul by (pose proof (pow_pos (- e)); lia).
  assert (HQ : 0 < Q) by (pose proof (pow_pos (- e) ltac:(lia)); nia).
  destruct Q as [|q|q]; try lia.
  unfold binary_normalize.
  rewrite (binary_round_exact false q 0 m e Hb ltac:(lia)).
  - rewrite <- E. apply SF2Prim_Prim2SF.
  - simpl (0 + 1074). lia.
Qed.

End ExactDiv.

Section FloorDivMod.

Local Open Scope Z_scope.

Lemma fin_zero_like f : fin (zero_like f) 0.
Proof. unfold zero_like. destruct (get_sign f); reflexivity. Qed.

Lemma zero_like_pos w vw : fin w vw -> 0 < vw -> zero_like w = 0%float.
Proof.
  intros Hw Hpos. unfold zero_like, get_sign, is_zero.
  change zero with 0%float.
  rewrite (fin_eqb_zero _ _ Hw).
  destruct (Z.eqb_spec vw 0); [lia|].
  now rewrite (fin_ltb_zero _ _ Hw).
Qed.

Lemma half_not_below_zero z : fin z 0 -> (0.5 <? z)%float = false.
Proof.
  intros Hz. rewrite ltb_spec. unfold SFltb.
  destruct (fin_cases _ _ Hz) as [[_ [s ->]]|[Hpos _]]; [|lia].
  reflexivity.
Qed.

(** [v % w] for a finite [v >= 0] and a finite [w > 0]. *)
Lemma fin_mod x w vx vw :
  fin x vx -> fin w vw -> 0 < vw ->
  exists m, mod_ x w = Ok m /\ fin m (vx mod vw).
Proof.
  intros Hx Hw Hpos. unfold mod_.
  rewrite (fin_eqb_zero _ _ Hw).
  destruct (Z.eqb_spec vw 0); [lia|].
  pose proof (fin_fmod _ _ _ _ Hx Hw Hpos) as Hm.
  rewrite (fin_nonzero _ _ Hm), (fin_ltb_zero _ _ Hw), (fin_ltb_zero _ _ Hm).
  cbn [Bool.eqb negb].
  destruct (Z.eqb_spec (vx mod vw) 0) as [E|E]; cbn [negb].
  - eexists. split; [reflexivity|]. rewrite E.
    rewrite (zero_like_pos _ _ Hw Hpos). reflexivity.
  - eexists. split; [reflexivity|exact Hm].
Qed.

(** [v // w] for a finite [v >= 0] below [2 ^ 53] and a positive
    integer [w]. *)
Lemma fin_floordiv x w vx W :
  fin x vx -> fin w (W * 2 ^ 1074) -> 0 < W < 2 ^ 53 ->
  vx < 2 ^ 53 * 2 ^ 1074 ->
  exists q, floordiv x w = Ok q /\ fin q (vx / (W * 2 ^ 1074) * 2 ^ 1074).
Proof.
  intros Hx Hw HW Hvx.
  pose proof (pow_pos 1074 ltac:(lia)) as HS.
  pose proof (fin_nonneg _ _ Hx) as Hx0.
  set (vw := W * 2 ^ 1074) in *.
  assert (Hvw : 0 < vw) by (unfold vw; nia).
  unfold floordiv. rewrite (fin_eqb_zero _ _ Hw).
  destruct (Z.eqb_spec vw 0); [lia|].
  pose proof (fin_fmod _ _ _ _ Hx Hw Hvw) as Hm.
  rewrite (fin_ltb_zero _ _ Hw), (fin_ltb_zero _ _ Hm).
  cbn [Bool.eqb negb]. rewrite andb_false_r.
  set (Q := vx / vw).
  assert (HQ : 0 <= Q) by (apply Z.div_pos; lia).
  pose proof (Z.div_mod vx vw ltac:(lia)) as Hdm. fold Q in Hdm.
  pose proof (Z.mod_pos_bound vx vw Hvw) as Hr.
  assert (HQW : Q * W < 2 ^ 53) by (unfold vw in *; nia).
  assert (Hsub : fin (x - fmod x w)%float (Q * W * 2 ^ 1074)).
  { replace (Q * W * 2 ^ 1074) with (vx - vx mod vw) by (unfold vw in *; lia).
    apply (fin_sub x (fmod x w) vx (vx mod vw) (Q * W) 0); auto; try lia. }
  pose proof (fin_div _ _ Q W Hsub Hw ltac:(lia) HQ HQW ltac:(lia)) as Hdiv.
  rewrite (fin_nonzero _ _ Hdiv).
  destruct (Z.eqb_spec (Q * 2 ^ 1074) 0) as [E|E]; cbn [negb].
  - eexists. split; [reflexivity|]. rewrite E. apply fin_zero_like.
  - eexists. split; [reflexivity|]. cbv zeta.
    rewrite (floor_integral _ Q Hdiv).
    assert (Hself : fin ((x - fmod x w) / w - (x - fmod x w) / w)%float 0).
    { replace 0 with (Q * 2 ^ 1074 - Q * 2 ^ 1074) by lia.
      apply (fin_sub _ _ _ _ 0 0 Hdiv Hdiv); lia. }
    rewrite (half_not_below_zero _ Hself). exact Hdiv.
Qed.

(** A float between [0] and [2 ^ 53] is finite. *)
Lemma fin_of_range x :
  (0 <=? x)%float = true -> (x <? 0x1p53)%float = true ->
  exists vx, fin x vx /\ 0 <= vx < 2 ^ 53 * 2 ^ 1074.
Proof.
  rewrite leb_spec, ltb_spec. unfold SFleb, SFltb, fin.
  replace (Prim2SF 0) with (S754_zero false) by reflexivity.
  replace (Prim2SF 0x1p53) with (S754_finite false 4503599627370496 1) by reflexivity.
  pose proof (Prim2SF_valid x) as Hv.
  pose proof (pow_pos 1074 ltac:(lia)) as HS.
  destruct (Prim2SF x) as [s|s| |s m e]; try discriminate.
  - intros _ _. exists 0. split; [reflexivity|lia].
  - destruct s; discriminate.
  - destruct s; [discriminate|]. intros _. simpl in Hv.
    pose proof (bounded_emin _ _ Hv) as He.
    pose proof (bounded_digits _ _ Hv) as Hm.
    pose proof (pow_pos (e + 1074) ltac:(lia)).
    cbn [SFcompare]. rewrite Pos.compare_cont_spec. unfold Pos.switch_Eq.
    assert (H1 : e = 1 -> 2 ^ (e + 1074) = 2 * 2 ^ 1074).
    { intros ->. replace (1 + 1074) with (Z.succ 1074) by lia.
      apply Z.pow_succ_r; lia. }
    assert (Hmono : e <= 0 -> 2 ^ (e + 1074) <= 2 ^ 1074)
      by (intros; apply Z.pow_le_mono_r; lia).
    assert (H53 : 2 ^ 53 = 2 * 4503599627370496) by reflexivity.
    revert H1 Hmono H HS Hm.
    generalize (2 ^ (e + 1074)) (2 ^ 1074) (2 ^ 53) H53.
    intros Se S P53 -> H1 Hmono H HS Hm.
    destruct (Z.compare_spec e 1) as [E|Hlt|Hgt]; try discriminate.
    + destruct (Pos.compare_spec m 4503599627370496) as [|Hlt|]; try discriminate.
      intros _. exists (Zpos m * Se). split; [reflexivity|].
      specialize (H1 E). apply Pos2Z.pos_lt_pos in Hlt. nia.
    + intros _. exists (Zpos m * Se). split; [reflexivity|].
      specialize (Hmono ltac:(lia)). nia.
Qed.

End FloorDivMod.

Section RoundUp.

Local Open Scope Z_scope.

Lemma shr_1_inv P k mrs :
  0 <= k -> shr_inv P k mrs -> shr_inv P (k + 1) (shr_1 mrs).
Proof.
  intros Hk (Hm & rho & HP & Hrho & _). unfold shr_inv.
  replace (k + 1 - 1) with k by lia.
  rewrite Z.pow_add_r by lia. change (2 ^ 1) with 2.
  pose proof (pow_pos k Hk) as Hp.
  revert HP Hrho Hp. generalize (2 ^ k). intros T HP Hrho Hp.
  destruct mrs as [m r s]. cbn [shr_m] in *.
  destruct m as [|[p|p|]|p]; cbn [shr_1 shr_m shr_r]; try lia.
  - split; [lia|]. exists rho. split; [lia|]. split; [lia|discriminate].
  - split; [lia|]. exists (T + rho). split; [lia|]. split; [lia|]. lia.
  - split; [lia|]. exists rho. split; [lia|]. split; [lia|discriminate].
  - split; [lia|]. exists (T + rho). split; [lia|]. split; [lia|]. lia.
Qed.

Lemma shr_iter_inv P k start :
  shr_inv P 0 start -> shr_inv P (Zpos k) (iter_pos shr_1 k start).
Proof.
  intros H0. rewrite iter_pos_iter.
  induction k as [|k IH] using Pos.peano_ind.
  - apply (shr_1_inv P 0); [lia|exact H0].
  - rewrite Pos.iter_succ, Pos2Z.inj_succ. apply shr_1_inv; [lia|exact IH].
Qed.

Lemma shr_inv_start P : 0 <= P -> shr_inv P 0 (shr_record_of_loc P loc_Exact).
Proof.
  intros HP. split; [exact HP|]. exists 0. cbn. split; [lia|]. split; [lia|discriminate].
Qed.

(** Rounding to nearest moves the mantissa up by one at most, and only
    when the round bit is set. *)
Lemma round_nearest_even_bound mrs :
  shr_m mrs <= round_nearest_even (shr_m mrs) (loc_of_shr_record mrs)
  /\ round_nearest_even (shr_m mrs) (loc_of_shr_record mrs)
     <= shr_m mrs + (if shr_r mrs then 1 else 0).
Proof.
  destruct mrs as [m [|] [|]]; cbn; try lia.
  destruct (Z.even m); lia.
Qed.

(** What [shr_fexp] does to a non-negative mantissa [P] at exponent
    [E]: the new mantissa [q] at exponent [E + n], [n >= 0], with
    [q * 2 ^ n <= P], and the remainder is at least half a unit when the
    round bit is set. *)
Lemma shr_fexp_inv P E mrs e' :
  0 <= P -> shr_fexp prec emax P E loc_Exact = (mrs, e') ->
  exists n, 0 <= n /\ e' = E + n /\ shr_inv P n mrs
            /\ n = Z.max 0 (fexp prec emax (Zdigits2 P + E) - E).
Proof.
  intros HP. unfold shr_fexp, shr.
  destruct (fexp prec emax (Zdigits2 P + E) - E) as [|k|k] eqn:Hn;
    intros [= <- <-].
  - exists 0. split; [lia|]. split; [lia|]. split; [now apply shr_inv_start|lia].
  - exists (Zpos k). split; [lia|]. split; [lia|].
    split; [now apply shr_iter_inv, shr_inv_start|lia].
  - exists 0. split; [lia|]. split; [lia|]. split; [now apply shr_inv_start|lia].
Qed.

End RoundUp.

Section RoundUpper.

Local Open Scope Z_scope.

Lemma Zdigits2_le q d : 0 <= q -> q < 2 ^ d -> 0 <= d -> Zdigits2 q <= d.
Proof.
  intros Hq Hlt Hd. destruct q as [|p|p]; [simpl; lia| |lia].
  cbn [Zdigits2]. pose proof (digits2_bounds p) as [Hlo _].
  destruct (Z_le_gt_dec (Zpos (digits2_pos p)) d); [assumption|].
  assert (2 ^ d <= 2 ^ (Zpos (digits2_pos p) - 1)) by (apply Z.pow_le_mono_r; lia).
  lia.
Qed.

(** Rounding a positive number [P * 2 ^ E] to nearest gives zero or a
    positive float that exceeds it by half a unit in the last place at
    most; in units of [2 ^ E], by [2 ^ 52] at most when no more than 53
    bits are shifted out. *)
Lemma round_aux_upper P E :
  fexp prec emax (Zpos (digits2_pos P) + E) - E <= 53 ->
  fexp prec emax (Zpos (digits2_pos P) + E) <= 970 -> E <= 970 ->
  binary_round_aux prec emax false (Zpos P) E loc_Exact = S754_zero false
  \/ exists m e,
       binary_round_aux prec emax false (Zpos P) E loc_Exact
       = S754_finite false m e
       /\ E <= e /\ Zpos m * 2 ^ (e - E) <= Zpos P + 2 ^ 52.
Proof.
  intros Hn He1 HE. unfold binary_round_aux.
  destruct (shr_fexp prec emax (Zpos P) E loc_Exact) as [mrs1 e1] eqn:H1.
  destruct (shr_fexp_inv (Zpos P) E mrs1 e1 ltac:(lia) H1)
    as (n1 & Hn1 & -> & (Hq & rho1 & HP & Hrho1 & Hr1) & En1).
  cbn [Zdigits2] in En1.
  pose proof (round_nearest_even_bound mrs1) as [Hlo Hhi].
  set (q := shr_m mrs1) in *.
  set (q' := round_nearest_even q (loc_of_shr_record mrs1)) in *.
  pose proof (pow_pos n1 Hn1) as Hp1.
  (* the rounded mantissa, in units of [2 ^ E] *)
  assert (Hup : q' * 2 ^ n1 <= Zpos P + 2 ^ 52).
  { destruct (shr_r mrs1).
    - specialize (Hr1 eq_refl).
      destruct (Z.eq_dec n1 0) as [->|Hnz].
      + change (2 ^ 0) with 1 in *. lia.
      + assert (E2 : 2 ^ n1 = 2 * 2 ^ (n1 - 1)).
        { replace n1 with (Z.succ (n1 - 1)) at 1 by lia.
          apply Z.pow_succ_r. lia. }
        assert (2 ^ (n1 - 1) <= 2 ^ 52) by (apply Z.pow_le_mono_r; lia).
        revert E2 H Hr1 HP Hrho1 Hp1. generalize (2 ^ (n1 - 1)) (2 ^ n1) (2 ^ 52).
        intros; nia.
    - assert (0 < 2 ^ 52) by (apply pow_pos; lia).
      revert H HP Hrho1 Hp1. generalize (2 ^ n1) (2 ^ 52). intros; nia. }
  (* the rounded mantissa has 54 bits at most *)
  assert (Hq53 : q' <= 2 ^ 53).
  { assert (q < 2 ^ 53); [|destruct (shr_r mrs1); lia].
    destruct (Z_lt_le_dec q (2 ^ 53)) as [|Hge]; [assumption|exfalso].
    pose proof (digits2_bounds P) as [_ HdP].
    assert (2 ^ Zpos (digits2_pos P) <= 2 ^ (53 + n1)).
    { apply Z.pow_le_mono_r; [lia|]. rewrite fexp_eq in En1. lia. }
    rewrite Z.pow_add_r in H by lia.
    revert H Hge HP Hrho1 Hp1 HdP.
    generalize (2 ^ n1) (2 ^ 53) (2 ^ Zpos (digits2_pos P)). intros; nia. }
  assert (Hd' : Zdigits2 q' <= 54).
  { apply Zdigits2_le; lia. }
  destruct (shr_fexp prec emax q' (E + n1) loc_Exact) as [mrs2 e2] eqn:H2.
  destruct (shr_fexp_inv q' (E + n1) mrs2 e2 ltac:(lia) H2)
    as (n2 & Hn2 & -> & (Hm & rho2 & Hq' & Hrho2 & _) & En2).
  rewrite fexp_eq in En1, En2, He1, Hn.
  destruct (shr_m mrs2) as [|m|m] eqn:Em; [now left| |lia].
  right. exists m, (E + n1 + n2).
  destruct (Z.leb_spec (E + n1 + n2) (emax - prec)) as [_|Hov].
  - split; [reflexivity|]. split; [lia|].
    replace (E + n1 + n2 - E) with (n2 + n1) by lia.
    rewrite Z.pow_add_r by lia.
    pose proof (pow_pos n2 Hn2) as Hp2.
    revert Hup Hq' Hrho2 Hp1 Hp2. generalize (2 ^ n1) (2 ^ n2) (2 ^ 52).
    intros; nia.
  - change (emax - prec) with 971 in Hov. lia.
Qed.

End RoundUpper.

Section Fraction.

Local Open Scope Z_scope.

(** A fraction below one, times a constant [K] whose mantissa is above
    [2 ^ 52], truncates below [K]: the rounded product never reaches
    [K]. *)
Lemma fin_frac_mul r vf k K mk ek :
  fin r vf -> vf < 2 ^ 1074 ->
  Prim2SF k = S754_finite false mk ek ->
  -52 <= ek <= 0 -> Zpos mk = K * 2 ^ (- ek) -> 2 ^ 52 < Zpos mk < 2 ^ 53 ->
  exists c, int (r * k)%float = Ok c /\ 0 <= c < K.
Proof.
  intros Hr Hvf Ek Hek HK Hmk.
  assert (HKpos : 0 < K) by (pose proof (pow_pos (- ek) ltac:(lia)); nia).
  unfold int. rewrite mul_spec, Ek.
  destruct (fin_cases _ _ Hr) as [[_ [s ->]]|[_ (mf & ef & -> & Hb & ->)]].
  - exists 0. split; [reflexivity|lia].
  - pose proof (bounded_emin _ _ Hb) as Hef.
    pose proof (bounded_digits _ _ Hb) as Hmf.
    assert (Hef0 : ef < 0).
    { destruct (Z_lt_le_dec ef 0); [assumption|exfalso].
      assert (2 ^ 1074 <= 2 ^ (ef + 1074)) by (apply Z.pow_le_mono_r; lia).
      pose proof (pow_pos 1074 ltac:(lia)). nia. }
    assert (Hfrac : Zpos mf < 2 ^ (- ef)).
    { replace 1074 with ((- ef) + (ef + 1074)) in Hvf at 2 by lia.
      rewrite (Z.pow_add_r 2 (- ef) (ef + 1074)) in Hvf by lia.
      pose proof (pow_pos (ef + 1074) ltac:(lia)). nia. }
    unfold SF64mul, SFmul. cbn [xorb].
    set (E := ef + ek).
    assert (Hdig : Zpos (digits2_pos (mf * mk)) <= 106).
    { pose proof (digits2_mul_le mf mk (mf * mk) eq_refl).
      pose proof (Zdigits2_le (Zpos mf) 53 ltac:(lia) ltac:(lia) ltac:(lia)).
      pose proof (Zdigits2_le (Zpos mk) 53 ltac:(lia) ltac:(lia) ltac:(lia)).
      cbn [Zdigits2] in *. lia. }
    assert (Hbound : Zpos (mf * mk) + 2 ^ 52 < K * 2 ^ (- E)).
    { unfold E. replace (- (ef + ek)) with ((- ek) + (- ef)) by lia.
      rewrite Z.pow_add_r, Z.mul_assoc, <- HK by lia.
      rewrite Pos2Z.inj_mul.
      revert Hfrac Hmk. generalize (2 ^ (- ef)) (2 ^ 52). intros; nia. }
    destruct (round_aux_upper (mf * mk) E) as [->|(m & e & -> & HEe & Hup)].
    + rewrite fexp_eq. unfold E. lia.
    + rewrite fexp_eq. unfold E. lia.
    + unfold E. lia.
    + exists 0. split; [reflexivity|lia].
    + cbn [cond_Zopp]. eexists. split; [reflexivity|].
      assert (Hlt : Zpos m * 2 ^ (e - E) < K * 2 ^ (- E)) by lia.
      destruct (Z.leb_spec 0 e).
      * replace (e - E) with (e + (- E)) in Hlt by lia.
        rewrite Z.pow_add_r, Z.mul_assoc in Hlt by (unfold E; lia).
        pose proof (pow_pos e ltac:(lia)).
        pose proof (pow_pos (- E) ltac:(unfold E; lia)).
        split; [nia|]. nia.
      * replace (- E) with ((- e) + (e - E)) in Hlt by lia.
        rewrite Z.pow_add_r, Z.mul_assoc in Hlt by lia.
        pose proof (pow_pos (- e) ltac:(lia)).
        pose proof (pow_pos (e - E) ltac:(lia)).
        split; [apply Z.div_pos; lia|].
        apply Z.div_lt_upper_bound; [lia|]. nia.
Qed.

End Fraction.

Section Components.

Local Open Scope Z_scope.

Lemma div_scaled a W S : 0 < W -> 0 < S -> a / (W * S) * S / S = a / S / W.
Proof.
  intros HW HS. rewrite Z.div_mul by lia.
  rewrite Z.div_div by lia. f_equal. lia.
Qed.

Lemma mod_scaled a W S : 0 < W -> 0 < S -> (a mod (W * S)) / S = (a / S) mod W.
Proof.
  intros HW HS. rewrite (Z.mul_comm W S), Z.rem_mul_r by lia.
  rewrite (Z.mul_comm S), Z.div_add by lia.
  rewrite Z.div_small by (apply Z.mod_pos_bound; lia). lia.
Qed.

Lemma fin_const_3600 : fin 3600 (3600 * 2 ^ 1074).
Proof. unfold fin. vm_compute. reflexivity. Qed.

Lemma fin_const_60 : fin 60 (60 * 2 ^ 1074).
Proof. unfold fin. vm_compute. reflexivity. Qed.

Lemma fin_const_1 : fin 1 (1 * 2 ^ 1074).
Proof. unfold fin. vm_compute. reflexivity. Qed.

(** The four quantities both formatters compute from a number of
    seconds [x] in the range from [0] to [2 ^ 53], in terms of the whole
    seconds [n] of [x]. *)
Lemma time_components x vx :
  fin x vx -> vx < 2 ^ 53 * 2 ^ 1074 ->
  (exists q, floordiv x 3600 = Ok q /\ int q = Ok (vx / 2 ^ 1074 / 3600))
  /\ (exists r q, mod_ x 3600 = Ok r /\ floordiv r 60 = Ok q
                  /\ int q = Ok ((vx / 2 ^ 1074) mod 3600 / 60))
  /\ (exists r, mod_ x 60 = Ok r /\ int r = Ok ((vx / 2 ^ 1074) mod 60))
  /\ (exists r, mod_ x 1 = Ok r /\ fin r (vx mod 2 ^ 1074)).
Proof.
  intros Hx Hvx.
  pose proof (pow_pos 1074 ltac:(lia)) as HS.
  pose proof (fin_nonneg _ _ Hx) as Hx0.
  pose proof fin_const_3600 as H3600. pose proof fin_const_60 as H60.
  pose proof fin_const_1 as H1.
  split; [|split; [|split]].
  - destruct (fin_floordiv x 3600 vx 3600 Hx H3600 ltac:(lia) Hvx) as (q & Eq & Hq).
    exists q. split; [exact Eq|]. rewrite (fin_int _ _ Hq). f_equal.
    apply div_scaled; lia.
  - destruct (fin_mod x 3600 vx _ Hx H3600 ltac:(lia)) as (r & Er & Hr).
    assert (Hrlt : vx mod (3600 * 2 ^ 1074) < 2 ^ 53 * 2 ^ 1074).
    { pose proof (Z.mod_pos_bound vx (3600 * 2 ^ 1074) ltac:(lia)).
      revert H HS. generalize (vx mod (3600 * 2 ^ 1074)) (2 ^ 1074). intros; nia. }
    destruct (fin_floordiv r 60 _ 60 Hr H60 ltac:(lia) Hrlt) as (q & Eq & Hq).
    exists r, q. split; [exact Er|]. split; [exact Eq|].
    rewrite (fin_int _ _ Hq). f_equal.
    rewrite div_scaled by lia. now rewrite mod_scaled by lia.
  - destruct (fin_mod x 60 vx _ Hx H60 ltac:(lia)) as (r & Er & Hr).
    exists r. split; [exact Er|]. rewrite (fin_int _ _ Hr). f_equal.
    apply mod_scaled; lia.
  - destruct (fin_mod x 1 vx _ Hx H1 ltac:(lia)) as (r & Er & Hr).
    exists r. split; [exact Er|]. now rewrite Z.mul_1_l in Hr.
Qed.

End Components.

Section Timestamps.

Local Open Scope Z_scope.

Lemma range_check (p : Z -> bool) (k : nat) :
  forallb p (map Z.of_nat (seq 0 k)) = true ->
  forall v, 0 <= v < Z.of_nat k -> p v = true.
Proof.
  intros H v Hv. rewrite forallb_forall in H. apply H.
  apply in_map_iff. exists (Z.to_nat v). split; [lia|].
  apply in_seq. lia.
Qed.

Lemma pystr_eq_dec (a b : pystr) : {a = b} + {a <> b}.
Proof. apply list_eq_dec, N.eq_dec. Defined.

Lemma format_02d v : 0 <= v < 100 -> format_0d 2 v = two_digits v.
Proof.
  intros Hv.
  pose proof (range_check
    (fun v => if pystr_eq_dec (format_0d 2 v) (two_digits v) then true else false)
    100 ltac:(vm_compute; reflexivity) v Hv) as H.
  cbv beta in H. now destruct (pystr_eq_dec (format_0d 2 v) (two_digits v)).
Qed.

Lemma format_03d v : 0 <= v < 1000 -> format_0d 3 v = three_digits v.
Proof.
  intros Hv.
  pose proof (range_check
    (fun v => if pystr_eq_dec (format_0d 3 v) (three_digits v) then true else false)
    1000 ltac:(vm_compute; reflexivity) v Hv) as H.
  cbv beta in H. now destruct (pystr_eq_dec (format_0d 3 v) (three_digits v)).
Qed.

Lemma fin_const_1000 :
  Prim2SF 1000 = S754_finite false 8796093022208000 (-43).
Proof. reflexivity. Qed.

Lemma fin_const_100 :
  Prim2SF 100 = S754_finite false 7036874417766400 (-46).
Proof. reflexivity. Qed.

(** What the two formatters compute from a time value. *)
Lemma time_value_components x :
  time_value x ->
  exists n q1 r2 q2 r3 r4,
    int x = Ok n /\ 0 <= n < 2 ^ 53
    /\ floordiv x 3600 = Ok q1 /\ int q1 = Ok (n / 3600)
    /\ mod_ x 3600 = Ok r2 /\ floordiv r2 60 = Ok q2
    /\ int q2 = Ok (n mod 3600 / 60)
    /\ mod_ x 60 = Ok r3 /\ int r3 = Ok (n mod 60)
    /\ mod_ x 1 = Ok r4
    /\ (exists ms, int (r4 * 1000)%float = Ok ms /\ 0 <= ms < 1000)
    /\ (exists cs, int (r4 * 100)%float = Ok cs /\ 0 <= cs < 100).
Proof.
  intros [H0 H53]. destruct (fin_of_range x H0 H53) as (vx & Hx & Hvx).
  pose proof (pow_pos 1074 ltac:(lia)) as HS.
  destruct (time_components x vx Hx ltac:(lia))
    as ((q1 & E1 & I1) & (r2 & q2 & E2 & E2' & I2) & (r3 & E3 & I3) & (r4 & E4 & H4)).
  exists (vx / 2 ^ 1074), q1, r2, q2, r3, r4.
  assert (Hfrac : vx mod 2 ^ 1074 < 2 ^ 1074) by (apply Z.mod_pos_bound; lia).
  split; [now apply fin_int|].
  split; [split; [apply Z.div_pos; lia|apply Z.div_lt_upper_bound; lia]|].
  repeat (split; [assumption|]).
  split.
  - apply (fin_frac_mul r4 _ 1000 1000 _ _ H4 Hfrac fin_const_1000);
      [lia|reflexivity|lia].
  - apply (fin_frac_mul r4 _ 100 100 _ _ H4 Hfrac fin_const_100);
      [lia|reflexivity|lia].
Qed.

End Timestamps.

Section TimestampTheorems.

Local Open Scope Z_scope.

(** [_format_time] on a time value: the hours, minutes and seconds of
    its whole seconds, hours on two digits or more, minutes and seconds
    on two digits, and three digits of milliseconds. *)
Lemma format_time_parts (seconds : float) :
  time_value seconds ->
  exists n frac millis,
    int seconds = Ok n /\ 0 <= n
    /\ mod_ seconds 1 = Ok frac
    /\ int (frac * 1000)%float = Ok millis /\ 0 <= millis < 1000
    /\ _format_time seconds
       = Ok (format_0d 2 (n / 3600) ++ str ":"
             ++ two_digits (n mod 3600 / 60) ++ str ":"
             ++ two_digits (n mod 60) ++ str ","
             ++ three_digits millis).
Proof.
  intros H.
  destruct (time_value_components _ H)
    as (n & q1 & r2 & q2 & r3 & r4 & En & Hn & E1 & I1 & E2 & E2' & I2
        & E3 & I3 & E4 & (ms & Ems & Hms) & _).
  exists n, r4, ms. repeat (split; [assumption || lia|]).
  unfold _format_time.
  rewrite E1; cbn [bind]. rewrite I1; cbn [bind].
  rewrite E2; cbn [bind]. rewrite E2'; cbn [bind]. rewrite I2; cbn [bind].
  rewrite E3; cbn [bind]. rewrite I3; cbn [bind].
  rewrite E4; cbn [bind]. rewrite Ems; cbn [bind].
  pose proof (Z.mod_pos_bound n 3600 ltac:(lia)).
  pose proof (Z.mod_pos_bound n 60 ltac:(lia)).
  rewrite (format_02d (n mod 3600 / 60)), (format_02d (n mod 60)),
    (format_03d ms); try lia; [reflexivity|].
  split; [apply Z.div_pos; lia|apply Z.div_lt_upper_bound; lia].
Qed.

(** X2. For a number of seconds from 0 to below [2 ^ 53],
    [_format_time_ass] returns [H:MM:SS.cc]: with [n] the whole
    seconds, the hours [n / 3600] in decimal without padding, the
    minutes [n mod 3600 / 60] and the seconds [n mod 60] on two digits,
    and on two digits the centiseconds, the fraction times 100
    truncated, which is from 0 to 99. *)
Theorem format_time_ass_whole_seconds (seconds : float) :
  time_value seconds ->
  exists n frac centisecs,
    int seconds = Ok n /\ 0 <= n
    /\ mod_ seconds 1 = Ok frac
    /\ int (frac * 100)%float = Ok centisecs /\ 0 <= centisecs < 100
    /\ _format_time_ass seconds
       = Ok (format_d (n / 3600) ++ str ":"
             ++ two_digits (n mod 3600 / 60) ++ str ":"
             ++ two_digits (n mod 60) ++ str "."
             ++ two_digits centisecs).
Proof.
  intros H.
  destruct (time_value_components _ H)
    as (n & q1 & r2 & q2 & r3 & r4 & En & Hn & E1 & I1 & E2 & E2' & I2
        & E3 & I3 & E4 & _ & (cs & Ecs & Hcs)).
  exists n, r4, cs. repeat (split; [assumption || lia|]).
  unfold _format_time_ass.
  rewrite E1; cbn [bind]. rewrite I1; cbn [bind].
  rewrite E2; cbn [bind]. rewrite E2'; cbn [bind]. rewrite I2; cbn [bind].
  rewrite E3; cbn [bind]. rewrite I3; cbn [bind].
  rewrite E4; cbn [bind]. rewrite Ecs; cbn [bind].
  pose proof (Z.mod_pos_bound n 3600 ltac:(lia)).
  pose proof (Z.mod_pos_bound n 60 ltac:(lia)).
  rewrite (format_02d (n mod 3600 / 60)), (format_02d (n mod 60)),
    (format_02d cs); try lia; [reflexivity|].
  split; [apply Z.div_pos; lia|apply Z.div_lt_upper_bound; lia].
Qed.

(** The floats that are not finite. *)
Lemma not_finite_cases x :
  is_finite x = false -> x = nan \/ x = infinity \/ x = neg_infinity.
Proof.
  unfold is_finite, is_nan, is_infinity.
  rewrite !eqb_spec, abs_spec.
  replace (Prim2SF infinity) with (S754_infinity false) by reflexivity.
  unfold SFeqb.
  destruct (Prim2SF x) as [s|s| |s m e] eqn:E; cbn [SFabs SFcompare].
  - discriminate.
  - intros _. right. destruct s; [right|left]; apply Prim2SF_inj; rewrite E;
      reflexivity.
  - intros _. left. apply Prim2SF_inj. rewrite E. reflexivity.
  - rewrite Pos.compare_cont_spec, Z.compare_refl, Pos.compare_refl.
    destruct s; discriminate.
Qed.

(** X3. Neither formatter accepts a NaN or an infinity: both raise
    [ValueError], the floor division by 3600 giving a NaN that [int]
    refuses. *)
Theorem format_time_not_finite (seconds : float) :
  is_finite seconds = false ->
  _format_time seconds = Raise ValueError
  /\ _format_time_ass seconds = Raise ValueError.
Proof.
  intros H. destruct (not_finite_cases _ H) as [->|[->| ->]];
    split; vm_compute; reflexivity.
Qed.

End TimestampTheorems.

(* ================================================================== *)
(** * Further properties of the segmenter, the allocator and the emitters *)
(* ================================================================== *)

Section Trim.

Lemma lstrip_head s :
  match lstrip s with [] => True | c :: _ => isspace c = false end.
Proof.
  induction s as [|a s IH]; simpl; [exact I|].
  destruct (isspace a) eqn:Ha; [exact IH|exact Ha].
Qed.

Lemma lstrip_suffix s : exists ws, s = ws ++ lstrip s.
Proof.
  induction s as [|a s [ws IH]]; [now exists []|]. simpl.
  destruct (isspace a).
  - exists (a :: ws). simpl. now rewrite <- IH.
  - now exists [].
Qed.

Lemma rstrip_prefix s : exists ws, s = rstrip s ++ ws.
Proof.
  unfold rstrip. destruct (lstrip_suffix (rev s)) as [ws H].
  exists (rev ws). rewrite <- rev_app_distr, <- H. now rewrite rev_involutive.
Qed.

Lemma last_rev {A} (l : list A) (a d : A) : last (rev (a :: l)) d = a.
Proof. simpl. now rewrite last_last. Qed.

Lemma strip_trimmed s : trimmed (strip s).
Proof.
  unfold strip. set (t := lstrip s).
  pose proof (lstrip_head s) as Ht. fold t in Ht.
  destruct (rstrip_prefix t) as [ws Hws].
  pose proof (lstrip_head (rev t)) as Hl.
  unfold rstrip in *. destruct (lstrip (rev t)) as [|c u] eqn:E.
  - exact I.
  - unfold trimmed. destruct (rev (c :: u)) as [|h r] eqn:Er.
    + exact I.
    + split.
      * rewrite Hws in Ht. exact Ht.
      * rewrite <- Er. now rewrite last_rev.
Qed.

Lemma trimmed_strip s : trimmed s -> strip s = s.
Proof.
  destruct s as [|c s]; [reflexivity|]. intros [Hc Hl].
  unfold strip. cbn [lstrip]. rewrite Hc. unfold rstrip.
  destruct (rev (c :: s)) as [|h r] eqn:Er.
  - apply (f_equal (@rev _)) in Er. rewrite rev_involutive in Er. discriminate.
  - assert (Hh : h = last (c :: s) c).
    { rewrite <- (rev_involutive (c :: s)), Er. now rewrite last_rev. }
    cbn [lstrip]. rewrite Hh, Hl, <- Hh, <- Er. apply rev_involutive.
Qed.

End Trim.

Section SegmenterInvariants.

(** Every line the segmenter returns is clean. *)
Lemma split_lyrics_lines_clean (lyrics : pystr) :
  Forall clean (_split_lyrics lyrics).
Proof.
  apply Forall_forall. intros line Hin. unfold _split_lyrics in Hin.
  apply filter_In in Hin. destruct Hin as [Hin Hre].
  apply in_map_iff in Hin. destruct Hin as (raw & <- & Hraw).
  apply filter_In in Hraw. destruct Hraw as [Hraw Htruthy].
  assert (Hnl : ~ In LF (strip raw)).
  { intros H. apply strip_incl in H. exact (split_no_sep _ _ _ Hraw H). }
  repeat split.
  - intros E. rewrite E in Htruthy. discriminate.
  - apply strip_trimmed.
  - exact Hnl.
  - rewrite <- re_match_section_bracketed by exact Hnl.
    now apply negb_true_iff.
Qed.

Lemma split_single sep a : ~ In sep a -> split sep a = [a].
Proof.
  induction a as [|c a IH]; [reflexivity|]. intros H. simpl.
  destruct (N.eqb_spec c sep) as [->|Hc]; [exfalso; apply H; simpl; tauto|].
  rewrite IH; [reflexivity|]. intros Hin. apply H. simpl. tauto.
Qed.

Lemma split_app sep a b :
  ~ In sep a -> split sep (a ++ sep :: b) = a :: split sep b.
Proof.
  induction a as [|c a IH]; intros H; simpl.
  - now rewrite N.eqb_refl.
  - destruct (N.eqb_spec c sep) as [->|Hc]; [exfalso; apply H; simpl; tauto|].
    rewrite IH; [reflexivity|]. intros Hin. apply H. simpl. tauto.
Qed.

Lemma split_join sep ls :
  ls <> [] -> Forall (fun l => ~ In sep l) ls ->
  split sep (join [sep] ls) = ls.
Proof.
  induction ls as [|l ls IH]; [congruence|]. intros _ H.
  inversion H as [|? ? Hl Hls]; subst.
  destruct ls as [|l' ls']; [now apply split_single|].
  cbn [join]. cbn [app]. rewrite split_app by exact Hl.
  f_equal. apply IH; [discriminate|exact Hls].
Qed.

Lemma filter_all {A} (p : A -> bool) l :
  Forall (fun x => p x = true) l -> filter p l = l.
Proof.
  induction 1 as [|a l Ha _ IH]; [reflexivity|]. simpl. now rewrite Ha, IH.
Qed.

Lemma map_id_on {A} (f : A -> A) l :
  Forall (fun x => f x = x) l -> map f l = l.
Proof.
  induction 1 as [|a l Ha _ IH]; [reflexivity|]. simpl. now rewrite Ha, IH.
Qed.

(** Clean lines joined by line feeds are segmented into themselves. *)
Lemma split_lyrics_join_clean (lines : list pystr) :
  Forall clean lines -> _split_lyrics (join [LF] lines) = lines.
Proof.
  intros H. destruct lines as [|l ls]; [reflexivity|].
  unfold _split_lyrics. rewrite split_join.
  - rewrite (filter_all (fun line => truthy (strip line)) (l :: ls)).
    + rewrite (map_id_on strip (l :: ls)).
      * apply filter_all. eapply Forall_impl; [|exact H].
        intros a (_ & _ & Hnl & Hb).
        now rewrite re_match_section_bracketed, Hb.
      * eapply Forall_impl; [|exact H]. intros a (_ & Ht & _).
        now apply trimmed_strip.
    + eapply Forall_impl; [|exact H]. intros a (Hne & Ht & _).
      rewrite trimmed_strip by exact Ht. now destruct a.
  - discriminate.
  - eapply Forall_impl; [|exact H]. now intros a (_ & _ & Hnl & _).
Qed.


End SegmenterInvariants.

Section AllocatorErrors.

Lemma fin_not_infinity f v : fin f v -> is_infinity f = false.
Proof.
  intros H. unfold is_infinity. rewrite eqb_spec, abs_spec.
  replace (Prim2SF infinity) with (S754_infinity false) by reflexivity.
  destruct (fin_cases _ _ H) as [[_ [s ->]]|[_ (m & e & -> & _)]]; reflexivity.
Qed.

(** The length of a short line converts to a float. *)
Lemma float_of_int_small n :
  (0 <= n < 2 ^ 53)%Z -> exists f, float_of_int n = Ok f.
Proof.
  intros Hn. unfold float_of_int.
  pose proof (fin_normalize n 0 Hn ltac:(lia)) as H.
  rewrite (fin_not_infinity _ _ H). now eexists.
Qed.

Lemma max_floor q : fle 2 (Py.max 2 q).
Proof.
  unfold Py.max, fle. destruct (2 <? q)%float eqn:H; [|reflexivity].
  rewrite ltb_spec in H. rewrite leb_spec. unfold SFltb in H. unfold SFleb.
  destruct (SFcompare (Prim2SF 2) (Prim2SF q)) as [[| |]|]; try discriminate.
  reflexivity.
Qed.

Lemma line_durations_floor cps lines : forall acc,
  Forall short lines -> (cps =? 0)%float = false -> Forall (fle 2) acc ->
  exists ds, line_durations_loop cps lines acc = Ok ds /\ Forall (fle 2) ds.
Proof.
  induction lines as [|line rest IH]; intros acc Hs Hc Hacc.
  - exists acc. split; [reflexivity|exact Hacc].
  - inversion Hs as [|? ? Hl Hrest]; subst. cbn [line_durations_loop].
    destruct (float_of_int_small (Z.of_nat (length line))) as [f ->];
      [unfold short in Hl; lia|].
    cbn [bind]. unfold truediv. rewrite Hc. cbn [bind].
    apply IH; auto. apply Forall_app. split; [exact Hacc|].
    constructor; [apply max_floor|constructor].
Qed.

(** X6. With lines of fewer than [2 ^ 53] characters and a reading
    speed that does not compare equal to zero, the allocator returns:
    the raw durations are computed, one per line, each at least two
    seconds, and nothing after them raises. *)
Theorem assign_timings_nonzero_speed
    (lines : list pystr) (duration cps : float) :
  Forall short lines -> (cps =? 0)%float = false ->
  exists ds cues,
    line_durations_loop cps lines [] = Ok ds
    /\ length ds = length lines /\ Forall (fle 2) ds
    /\ _assign_timings lines duration cps = Ok cues.
Proof.
  intros Hs Hc.
  destruct (line_durations_floor cps lines [] Hs Hc ltac:(constructor))
    as (ds & Hds & Hfloor).
  destruct (assign_timings_returns lines duration cps ds Hds) as [cues Hcues].
  exists ds, cues. repeat split; auto.
  now rewrite (line_durations_length _ _ _ _ Hds).
Qed.

(** The first loop stops at its first division when the speed is
    zero. *)
Lemma line_durations_zero_speed cps line rest acc :
  short line -> feq cps 0 ->
  line_durations_loop cps (line :: rest) acc = Raise ZeroDivisionError.
Proof.
  intros Hl Hc. cbn [line_durations_loop].
  destruct (float_of_int_small (Z.of_nat (length line))) as [f ->];
    [unfold short in Hl; lia|].
  cbn [bind]. unfold truediv. unfold feq in Hc. now rewrite Hc.
Qed.

(** X7. With at least one line, lines of fewer than [2 ^ 53] characters
    and a reading speed that compares equal to zero ([0.0] or [-0.0]),
    the allocator raises [ZeroDivisionError], at the first line. *)
Theorem assign_timings_zero_speed
    (lines : list pystr) (duration cps : float) :
  lines <> [] -> Forall short lines -> feq cps 0 ->
  _assign_timings lines duration cps = Raise ZeroDivisionError.
Proof.
  intros Hne Hs Hc. destruct lines as [|line rest]; [congruence|].
  inversion Hs as [|? ? Hl _]; subst.
  unfold _assign_timings.
  now rewrite (line_durations_zero_speed cps line rest [] Hl Hc).
Qed.

End AllocatorErrors.

Section TextIndependence.

Lemma line_durations_lengths cps lines : forall lines' acc,
  map (@length char) lines = map (@length char) lines' ->
  line_durations_loop cps lines acc = line_durations_loop cps lines' acc.
Proof.
  induction lines as [|l ls IH]; intros [|l' ls'] acc H; try discriminate;
    [reflexivity|].
  injection H as Hl Hls. cbn [line_durations_loop]. rewrite Hl.
  destruct (float_of_int _); [|reflexivity]. cbn [bind].
  destruct (truediv _ _); [|reflexivity]. cbn [bind]. now apply IH.
Qed.

Lemma timing_loop_times duration sf ds : forall lines lines' t acc acc',
  length lines = length lines' -> map fst acc = map fst acc' ->
  map fst (timing_loop duration sf (combine lines ds) t acc)
  = map fst (timing_loop duration sf (combine lines' ds) t acc').
Proof.
  induction ds as [|d ds IH]; intros lines lines' t acc acc' Hlen Hacc.
  - rewrite !combine_nil. exact Hacc.
  - destruct lines as [|l ls], lines' as [|l' ls']; try discriminate;
      [exact Hacc|].
    cbn [combine timing_loop].
    assert (Hacc2 : forall e, map fst (acc ++ [(t, e, l)]) = map fst (acc' ++ [(t, e, l')]))
      by (intros; rewrite !map_app, Hacc; reflexivity).
    destruct (duration <=? _)%float; [apply Hacc2|].
    apply IH; [now injection Hlen|apply Hacc2].
Qed.

(** X8. The times the allocator gives depend on the lengths of the
    lines only: two line lists with the same lengths get the same
    start and end times, or the same exception. *)
Theorem assign_timings_lengths_only
    (lines lines' : list pystr) (duration cps : float) :
  map (@length char) lines = map (@length char) lines' ->
  timings (_assign_timings lines duration cps)
  = timings (_assign_timings lines' duration cps).
Proof.
  intros H.
  assert (Hlen : length lines = length lines').
  { apply (f_equal (@length nat)) in H. now rewrite !length_map in H. }
  unfold _assign_timings.
  destruct lines as [|l ls], lines' as [|l' ls']; try discriminate;
    [reflexivity|].
  rewrite (line_durations_lengths cps (l :: ls) (l' :: ls') [] H).
  destruct (line_durations_loop cps (l' :: ls') []) as [ds|]; [|reflexivity].
  cbn [bind].
  destruct (if (0 <? Py.sum ds)%float then truediv duration (Py.sum ds) else Ok 1%float)
    as [sf|]; [|reflexivity].
  cbn [bind timings]. f_equal. now apply timing_loop_times.
Qed.

End TextIndependence.

Section SrtDocument.









Lemma digit_line_feeds d l : line_feeds (digit d :: l) = line_feeds l.
Proof.
  unfold line_feeds. cbn [count_occ].
  destruct (N.eq_dec (digit d) LF) as [E|_]; [|reflexivity].
  unfold digit, LF in E. lia.
Qed.




End SrtDocument.

Section StyledErrors.

Variable float_repr : float -> pystr.



End StyledErrors.

Section Pipeline.

Lemma split_piece_length sep s : forall piece,
  In piece (split sep s) -> length piece <= length s.
Proof.
  induction s as [|c s IH]; intros piece; simpl.
  - intros [<-|[]]. simpl. lia.
  - destruct (c =? sep)%N.
    + intros [<-|H]; [simpl; lia|]. specialize (IH _ H). lia.
    + destruct (split sep s) as [|p ps].
      * intros [<-|[]]. simpl. lia.
      * intros [<-|H].
        -- specialize (IH p (or_introl eq_refl)). simpl. lia.
        -- specialize (IH piece (or_intror H)). lia.
Qed.

Lemma strip_length s : length (strip s) <= length s.
Proof.
  unfold strip. destruct (lstrip_suffix s) as [ws Hs].
  destruct (rstrip_prefix (lstrip s)) as [ws' Hr].
  apply (f_equal (@length _)) in Hs, Hr. rewrite length_app in Hs, Hr. lia.
Qed.

Lemma split_lyrics_short lyrics : short lyrics -> Forall short (_split_lyrics lyrics).
Proof.
  intros H. apply Forall_forall. intros line Hin. unfold _split_lyrics in Hin.
  apply filter_In in Hin. destruct Hin as [Hin _].
  apply in_map_iff in Hin. destruct Hin as (raw & <- & Hraw).
  apply filter_In in Hraw. destruct Hraw as [Hraw _].
  pose proof (split_piece_length _ _ _ Hraw). pose proof (strip_length raw).
  unfold short in *. lia.
Qed.

Variable float_repr : float -> pystr.

(** X13. Lyrics of fewer than [2 ^ 53] characters with a line to show
    and a reading speed that compares equal to zero make both
    generators raise [ZeroDivisionError], before anything is
    written. *)
Theorem generate_zero_speed
    (lyrics : pystr) (duration cps : float) (st : style_args) :
  _split_lyrics lyrics <> [] -> short lyrics -> feq cps 0 ->
  generate_srt lyrics duration cps = Raise ZeroDivisionError
  /\ generate_ass float_repr lyrics duration cps st = Raise ZeroDivisionError.
Proof.
  intros Hne Hs Hc. unfold generate_srt, generate_ass. cbv zeta.
  pose proof (split_lyrics_short _ Hs) as Hshort.
  destruct (_split_lyrics lyrics) as [|line rest]; [congruence|].
  inversion Hshort as [|? ? Hl _]; subst.
  unfold _assign_timings.
  rewrite (line_durations_zero_speed cps line rest [] Hl Hc).
  split; reflexivity.
Qed.

End Pipeline.

(* ================================================================== *)
(** * The formatters, the segmenter and the allocator as a user sees them *)
(* ================================================================== *)

Section Stamps.

Local Open Scope Z_scope.

(** X1. For a number of seconds from 0 to below [2 ^ 53],
    [_format_time] returns [HH:MM:SS,mmm]: with [n] the whole seconds,
    the hours [n / 3600] on two digits or more, and on exactly two
    below a hundred hours, the minutes [n mod 3600 / 60] and the seconds
    [n mod 60] on two digits, and on three digits the milliseconds, the
    fraction times 1000 truncated, which is from 0 to 999. *)
Theorem format_time_whole_seconds (seconds : float) :
  time_value seconds ->
  exists n frac millis,
    int seconds = Ok n /\ 0 <= n
    /\ mod_ seconds 1 = Ok frac
    /\ int (frac * 1000)%float = Ok millis /\ 0 <= millis < 1000
    /\ _format_time seconds
       = Ok (format_0d 2 (n / 3600) ++ str ":"
             ++ two_digits (n mod 3600 / 60) ++ str ":"
             ++ two_digits (n mod 60) ++ str ","
             ++ three_digits millis)
    /\ (n < 360000 -> format_0d 2 (n / 3600) = two_digits (n / 3600)).
Proof.
  intros H.
  destruct (format_time_parts seconds H)
    as (n & frac & millis & En & Hn & Ef & Em & Hm & E).
  exists n, frac, millis. repeat (split; [assumption|]).
  intros Hlt. apply format_02d. split.
  - apply Z.div_pos; lia.
  - apply Z.div_lt_upper_bound; lia.
Qed.

End Stamps.

(** X1 at 1 h 2 min 5.257 s. *)
Lemma format_time_whole_seconds_witness :
  time_value 3725.257
  /\ exists n frac millis,
       int 3725.257 = Ok n /\ (0 <= n)%Z
       /\ mod_ 3725.257 1 = Ok frac
       /\ int (frac * 1000)%float = Ok millis /\ (0 <= millis < 1000)%Z
       /\ _format_time 3725.257
          = Ok (format_0d 2 (n / 3600) ++ str ":"
                ++ two_digits (n mod 3600 / 60) ++ str ":"
                ++ two_digits (n mod 60) ++ str ","
                ++ three_digits millis)
       /\ ((n < 360000)%Z
           -> format_0d 2 (n / 3600) = two_digits (n / 3600)).
Proof.
  assert (H : time_value 3725.257) by (split; vm_compute; reflexivity).
  split; [exact H|]. exact (format_time_whole_seconds 3725.257 H).
Defined.

(** X2 at five seconds and a half. *)
Lemma format_time_ass_whole_seconds_witness :
  time_value 5.5
  /\ exists n frac centisecs,
       int 5.5 = Ok n /\ (0 <= n)%Z
       /\ mod_ 5.5 1 = Ok frac
       /\ int (frac * 100)%float = Ok centisecs /\ (0 <= centisecs < 100)%Z
       /\ _format_time_ass 5.5
          = Ok (format_d (n / 3600) ++ str ":"
                ++ two_digits (n mod 3600 / 60) ++ str ":"
                ++ two_digits (n mod 60) ++ str "."
                ++ two_digits centisecs).
Proof.
  assert (H : time_value 5.5) by (split; vm_compute; reflexivity).
  split; [exact H|]. exact (format_time_ass_whole_seconds 5.5 H).
Defined.

(** X3 at a NaN. *)
Lemma format_time_not_finite_witness :
  is_finite nan = false
  /\ _format_time nan = Raise ValueError
  /\ _format_time_ass nan = Raise ValueError.
Proof.
  assert (H : is_finite nan = false) by reflexivity.
  split; [exact H|]. exact (format_time_not_finite nan H).
Defined.


(** X6 at two lines and fifteen characters a second. *)
Lemma assign_timings_nonzero_speed_witness :
  Forall short two_lines /\ (15 =? 0)%float = false
  /\ exists ds cues,
       line_durations_loop 15 two_lines [] = Ok ds
       /\ length ds = length two_lines /\ Forall (fle 2) ds
       /\ _assign_timings two_lines 5 15 = Ok cues.
Proof.
  assert (H : Forall short two_lines)
    by (repeat constructor; vm_compute; reflexivity).
  assert (H0 : (15 =? 0)%float = false) by reflexivity.
  split; [exact H|]. split; [exact H0|].
  exact (assign_timings_nonzero_speed two_lines 5 15 H H0).
Defined.

(** X7 at two lines and a speed of [-0.0]. *)
Lemma assign_timings_zero_speed_witness :
  two_lines <> [] /\ Forall short two_lines /\ feq neg_zero 0
  /\ _assign_timings two_lines 5 neg_zero = Raise ZeroDivisionError.
Proof.
  assert (Hne : two_lines <> []) by discriminate.
  assert (H : Forall short two_lines)
    by (repeat constructor; vm_compute; reflexivity).
  assert (H0 : feq neg_zero 0) by reflexivity.
  split; [exact Hne|]. split; [exact H|]. split; [exact H0|].
  exact (assign_timings_zero_speed two_lines 5 neg_zero Hne H H0).
Defined.

(** X8 at two pairs of one-character lines. *)
Lemma assign_timings_lengths_only_witness :
  map (@length char) two_lines = map (@length char) [str "a"; str "b"]
  /\ timings (_assign_timings two_lines 5 15)
     = timings (_assign_timings [str "a"; str "b"] 5 15).
Proof.
  assert (H : map (@length char) two_lines
              = map (@length char) [str "a"; str "b"]) by reflexivity.
  split; [exact H|].
  exact (assign_timings_lengths_only two_lines [str "a"; str "b"] 5 15 H).
Defined.

(** X9. Every line the segmenter returns is not empty, has no white
    space at either end, holds no line feed and is not a section
    marker. *)
Theorem split_lyrics_clean (lyrics : pystr) :
  Forall clean (_split_lyrics lyrics).
Proof. exact (split_lyrics_lines_clean lyrics). Qed.

(** X10. Lines that are not empty, are trimmed, hold no line feed and
    are not section markers come back unchanged when they are joined by
    line feeds and segmented. *)
Theorem split_lyrics_join (lines : list pystr) :
  Forall clean lines -> _split_lyrics (join [LF] lines) = lines.
Proof. exact (split_lyrics_join_clean lines). Qed.

(** X10 at two words. *)
Lemma split_lyrics_join_witness :
  Forall clean [str "hello"; str "world"]
  /\ _split_lyrics (join [LF] [str "hello"; str "world"])
     = [str "hello"; str "world"].
Proof.
  assert (H : Forall clean [str "hello"; str "world"]).
  { repeat constructor; try discriminate; try reflexivity;
      cbn; intuition discriminate. }
  split; [exact H|]. exact (split_lyrics_join [str "hello"; str "world"] H).
Defined.

(** X11. Segmenting is idempotent: the lines of any lyrics, joined by
    line feeds and segmented again, are the same lines. *)
Theorem split_lyrics_idempotent (lyrics : pystr) :
  _split_lyrics (join [LF] (_split_lyrics lyrics)) = _split_lyrics lyrics.
Proof. apply split_lyrics_join_clean, split_lyrics_lines_clean. Qed.


(** X13 at the lyrics of P4 and a speed of zero. *)
Lemma generate_zero_speed_witness :
  _split_lyrics p4_lyrics <> [] /\ short p4_lyrics /\ feq 0 0
  /\ generate_srt p4_lyrics 70 0 = Raise ZeroDivisionError
  /\ generate_ass repr_integral p4_lyrics 70 0 p8_style
     = Raise ZeroDivisionError.
Proof.
  assert (Hne : _split_lyrics p4_lyrics <> []) by (vm_compute; discriminate).
  assert (H : short p4_lyrics) by (vm_compute; reflexivity).
  assert (H0 : feq 0 0) by reflexivity.
  split; [exact Hne|]. split; [exact H|]. split; [exact H0|].
  exact (generate_zero_speed repr_integral p4_lyrics 70 0 p8_style Hne H H0).
Defined.

Section LastCue.

Variables duration scale_factor : float.

Lemma timing_loop_before_last items : forall t i c,
  nth_error (timing_loop duration scale_factor items t []) i = Some c ->
  S i < length (timing_loop duration scale_factor items t []) ->
  (duration <=? end_seconds c)%float = false.
Proof.
  induction items as [|[line d] rest IH]; intros t i c.
  - destruct i; discriminate.
  - rewrite timing_loop_step. cbv zeta.
    destruct (duration <=? clamp duration (t + d * scale_factor))%float eqn:Hstop.
    + simpl length. lia.
    + destruct i as [|i]; simpl.
      * intros [= <-] _. exact Hstop.
      * intros Hn Hl. apply (IH _ i c Hn). lia.
Qed.

End LastCue.

(** X14. Only the last cue can reach the duration: for every returned
    cue but the last, [end_time >= duration] is false, which is why the
    loop went on after it. *)
Theorem assign_timings_only_last_reaches
    (lines : list pystr) (duration cps : float) (cues : list entry)
    (i : nat) (c : entry) :
  _assign_timings lines duration cps = Ok cues ->
  nth_error cues i = Some c -> S i < length cues ->
  (duration <=? end_seconds c)%float = false.
Proof.
  intros Hc Hi Hl. destruct lines as [|l0 ls].
  - injection Hc as <-. destruct i; discriminate.
  - destruct (assign_timings_run (l0 :: ls) _ _ _ ltac:(discriminate) Hc)
      as (ds & sf & _ & _ & ->).
    exact (timing_loop_before_last duration sf _ _ _ _ Hi Hl).
Qed.

(** X14 at the first of two cues. *)
Lemma assign_timings_only_last_reaches_witness :
  _assign_timings two_lines 5 15
  = Ok [(0, 2.5, str "x"); (2.5, 5, str "y")]%float
  /\ nth_error [(0, 2.5, str "x"); (2.5, 5, str "y")]%float 0
     = Some (0, 2.5, str "x")%float
  /\ 1 < length [(0, 2.5, str "x"); (2.5, 5, str "y")]%float
  /\ (5 <=? end_seconds (0, 2.5, str "x"))%float = false.
Proof.
  assert (H : _assign_timings two_lines 5 15
              = Ok [(0, 2.5, str "x"); (2.5, 5, str "y")]%float)
    by (vm_compute; reflexivity).
  assert (Hi : nth_error [(0, 2.5, str "x"); (2.5, 5, str "y")]%float 0
               = Some (0, 2.5, str "x")%float) by reflexivity.
  assert (Hl : 1 < length [(0, 2.5, str "x"); (2.5, 5, str "y")]%float)
    by (simpl; lia).
  split; [exact H|]. split; [exact Hi|]. split; [exact Hl|].
  exact (assign_timings_only_last_reaches two_lines 5 15 _ 0 _ H Hi Hl).
Defined.

Section NanDuration.

Lemma nan_not_leb (d x : float) : is_nan d = true -> (d <=? x)%float = false.
Proof.
  unfold is_nan. rewrite leb_spec, eqb_spec. unfold SFeqb, SFleb.
  destruct (SFcompare_refl (Prim2SF d)) as [E|E]; rewrite E; [discriminate|].
  intros _. destruct (Prim2SF d) as [s|s| |s m e]; try reflexivity;
    destruct s; discriminate E.
Qed.

Lemma timing_loop_nan duration scale_factor items :
  is_nan duration = true -> forall t,
  length (timing_loop duration scale_factor items t []) = length items.
Proof.
  intros Hd. induction items as [|[line d] rest IH]; intros t; [reflexivity|].
  rewrite timing_loop_step. cbv zeta. rewrite (nan_not_leb _ _ Hd).
  simpl. now rewrite IH.
Qed.

End NanDuration.

(** X15. A duration that is a NaN is never reached: when the allocator
    returns, it has given a cue to every line, in order. *)
Theorem assign_timings_nan_duration
    (lines : list pystr) (duration cps : float) (cues : list entry) :
  is_nan duration = true ->
  _assign_timings lines duration cps = Ok cues ->
  texts cues = lines.
Proof.
  intros Hd Hc.
  destruct (assign_timings_shape _ _ _ _ Hc) as ([rest Hrest] & _).
  assert (Hlen : length cues = length lines).
  { destruct lines as [|l0 ls]; [now injection Hc as <-|].
    destruct (assign_timings_run (l0 :: ls) _ _ _ ltac:(discriminate) Hc)
      as (ds & sf & _ & Hds & ->).
    rewrite (timing_loop_nan _ _ _ Hd), length_combine, Hds.
    apply Nat.min_id. }
  apply (f_equal (@length pystr)) in Hrest as Hl.
  rewrite length_app, texts_length, Hlen in Hl.
  destruct rest; [now rewrite app_nil_r in Hrest|simpl in Hl; lia].
Qed.

(** X15 at two lines. *)
Lemma assign_timings_nan_duration_witness :
  is_nan nan = true
  /\ exists cues, _assign_timings two_lines nan 15 = Ok cues
                  /\ texts cues = two_lines.
Proof.
  assert (Hd : is_nan nan = true) by reflexivity.
  assert (Hc : _assign_timings two_lines nan 15
               = Ok [(0, nan, str "x"); (nan, nan, str "y")]%float)
    by (vm_compute; reflexivity).
  split; [exact Hd|]. eexists. split; [exact Hc|].
  exact (assign_timings_nan_duration two_lines nan 15 _ Hd Hc).
Defined.
